(** * Vibegraph overlay: timeline buffer and playback clock

    A shallow embedding of the script of the vibegraph overlay component
    (the Vue component that owns the chart) and the properties of its
    timeline buffer, playback clock, device registry and event dispatcher.

    Modelling choices.
    - JavaScript numbers are modelled by the rationals [Q]: additions,
      subtractions, the product [duration * 0.2], [Math.min] and the
      comparisons are exact.  Rounding, [NaN] and infinities of IEEE doubles
      are outside the model.
    - The arrays held by [chart.data.datasets[i].data] are JavaScript objects
      that the code mutates in place ([push], [splice], [length = 0]) and
      re-assigns by reference ([ds.data = oldDataByName.get(..)]).  They live
      in an explicit [store]; a dataset holds a location into it, so that two
      datasets holding the same array object are visible as such.
    - [performance.now()] and the handle returned by [requestAnimationFrame]
      are inputs of the functions that read them.
    - [chart.update()] is observed through a counter of redraws. *)

From Stdlib Require Import QArith Qminmax Qround Lqa Ascii DecimalString.
From stdpp Require Import gmap strings list fin_maps.

Local Open Scope Q_scope.

(** ** Configuration constants *)

Definition VISIBLE_PAST : Q := 5000.
Definition VISIBLE_FUTURE : Q := 5000.
Definition STEP_SMOOTHING : Q := 100.

Record RGB := { r : Z; g : Z; b : Z }.

Definition LINE_COLORS : list RGB :=
  [ {| r := 242; g := 12;  b := 127 |};
    {| r := 12;  g := 242; b := 242 |};
    {| r := 242; g := 242; b := 242 |};
    {| r := 242; g := 242; b := 127 |};
    {| r := 12;  g := 242; b := 12  |} ].

(** ** Types *)

Record VibeConfig := { hidden : bool; paused : bool; strength : Q }.

Inductive VibeTargetMode := OVERRIDE | EXCLUSIVE.

Record VibeTarget := { target_device : string; target_value : Q }.

Record VibeFrame := {
  frame_id : Z;
  frame_duration : Q;
  frame_value : Q;
  frame_targets : list VibeTarget;
  frame_mode : VibeTargetMode
}.

Record VibeGroup := { group_username : string; group_frames : list VibeFrame }.

Record VibeDevice := { device_name : string }.

#[global] Instance VibeDevice_eq_dec : EqDecision VibeDevice.
Proof. solve_decision. Defined.

(** A chart point [{x, y}]: [x] is the virtual time, [y] the intensity. *)
Record Point := { pt_x : Q; pt_y : Q }.

(** ** State *)

(** Location of an array object in the store. *)
Abbreviation loc := nat (only parsing).

Record State := {
  config : VibeConfig;
  devices : list VibeDevice;
  username : string;
  tFrameBegin : Q;
  tFrameEnd : Q;
  tNow : Q;
  tTotal : Q;
  tUpdatedAt : Q;
  rafId : N;
  (** [datasets s !! i] is the array referenced by
      [chart.data.datasets[i].data]. *)
  datasets : list loc;
  store : list (list Point);
  (** [chart.options.scales.x.min] and [.max]. *)
  scale_min : Q;
  scale_max : Q;
  (** Number of calls of [chart.update()] so far. *)
  redraws : nat
}.

Definition set_config (v : VibeConfig) (s : State) : State :=
  {| config := v; devices := devices s; username := username s;
     tFrameBegin := tFrameBegin s; tFrameEnd := tFrameEnd s; tNow := tNow s;
     tTotal := tTotal s; tUpdatedAt := tUpdatedAt s; rafId := rafId s;
     datasets := datasets s; store := store s; scale_min := scale_min s;
     scale_max := scale_max s; redraws := redraws s |}.

Definition set_devices (v : list VibeDevice) (s : State) : State :=
  {| config := config s; devices := v; username := username s;
     tFrameBegin := tFrameBegin s; tFrameEnd := tFrameEnd s; tNow := tNow s;
     tTotal := tTotal s; tUpdatedAt := tUpdatedAt s; rafId := rafId s;
     datasets := datasets s; store := store s; scale_min := scale_min s;
     scale_max := scale_max s; redraws := redraws s |}.

Definition set_username (v : string) (s : State) : State :=
  {| config := config s; devices := devices s; username := v;
     tFrameBegin := tFrameBegin s; tFrameEnd := tFrameEnd s; tNow := tNow s;
     tTotal := tTotal s; tUpdatedAt := tUpdatedAt s; rafId := rafId s;
     datasets := datasets s; store := store s; scale_min := scale_min s;
     scale_max := scale_max s; redraws := redraws s |}.

Definition set_tFrameBegin (v : Q) (s : State) : State :=
  {| config := config s; devices := devices s; username := username s;
     tFrameBegin := v; tFrameEnd := tFrameEnd s; tNow := tNow s;
     tTotal := tTotal s; tUpdatedAt := tUpdatedAt s; rafId := rafId s;
     datasets := datasets s; store := store s; scale_min := scale_min s;
     scale_max := scale_max s; redraws := redraws s |}.

Definition set_tFrameEnd (v : Q) (s : State) : State :=
  {| config := config s; devices := devices s; username := username s;
     tFrameBegin := tFrameBegin s; tFrameEnd := v; tNow := tNow s;
     tTotal := tTotal s; tUpdatedAt := tUpdatedAt s; rafId := rafId s;
     datasets := datasets s; store := store s; scale_min := scale_min s;
     scale_max := scale_max s; redraws := redraws s |}.

Definition set_tNow (v : Q) (s : State) : State :=
  {| config := config s; devices := devices s; username := username s;
     tFrameBegin := tFrameBegin s; tFrameEnd := tFrameEnd s; tNow := v;
     tTotal := tTotal s; tUpdatedAt := tUpdatedAt s; rafId := rafId s;
     datasets := datasets s; store := store s; scale_min := scale_min s;
     scale_max := scale_max s; redraws := redraws s |}.

Definition set_tTotal (v : Q) (s : State) : State :=
  {| config := config s; devices := devices s; username := username s;
     tFrameBegin := tFrameBegin s; tFrameEnd := tFrameEnd s; tNow := tNow s;
     tTotal := v; tUpdatedAt := tUpdatedAt s; rafId := rafId s;
     datasets := datasets s; store := store s; scale_min := scale_min s;
     scale_max := scale_max s; redraws := redraws s |}.

Definition set_tUpdatedAt (v : Q) (s : State) : State :=
  {| config := config s; devices := devices s; username := username s;
     tFrameBegin := tFrameBegin s; tFrameEnd := tFrameEnd s; tNow := tNow s;
     tTotal := tTotal s; tUpdatedAt := v; rafId := rafId s;
     datasets := datasets s; store := store s; scale_min := scale_min s;
     scale_max := scale_max s; redraws := redraws s |}.

Definition set_rafId (v : N) (s : State) : State :=
  {| config := config s; devices := devices s; username := username s;
     tFrameBegin := tFrameBegin s; tFrameEnd := tFrameEnd s; tNow := tNow s;
     tTotal := tTotal s; tUpdatedAt := tUpdatedAt s; rafId := v;
     datasets := datasets s; store := store s; scale_min := scale_min s;
     scale_max := scale_max s; redraws := redraws s |}.

Definition set_datasets (v : list loc) (s : State) : State :=
  {| config := config s; devices := devices s; username := username s;
     tFrameBegin := tFrameBegin s; tFrameEnd := tFrameEnd s; tNow := tNow s;
     tTotal := tTotal s; tUpdatedAt := tUpdatedAt s; rafId := rafId s;
     datasets := v; store := store s; scale_min := scale_min s;
     scale_max := scale_max s; redraws := redraws s |}.

Definition set_store (v : list (list Point)) (s : State) : State :=
  {| config := config s; devices := devices s; username := username s;
     tFrameBegin := tFrameBegin s; tFrameEnd := tFrameEnd s; tNow := tNow s;
     tTotal := tTotal s; tUpdatedAt := tUpdatedAt s; rafId := rafId s;
     datasets := datasets s; store := v; scale_min := scale_min s;
     scale_max := scale_max s; redraws := redraws s |}.

Definition set_scale (lo hi : Q) (s : State) : State :=
  {| config := config s; devices := devices s; username := username s;
     tFrameBegin := tFrameBegin s; tFrameEnd := tFrameEnd s; tNow := tNow s;
     tTotal := tTotal s; tUpdatedAt := tUpdatedAt s; rafId := rafId s;
     datasets := datasets s; store := store s; scale_min := lo;
     scale_max := hi; redraws := redraws s |}.

(** [chart.update()] *)
Definition chart_update (s : State) : State :=
  {| config := config s; devices := devices s; username := username s;
     tFrameBegin := tFrameBegin s; tFrameEnd := tFrameEnd s; tNow := tNow s;
     tTotal := tTotal s; tUpdatedAt := tUpdatedAt s; rafId := rafId s;
     datasets := datasets s; store := store s; scale_min := scale_min s;
     scale_max := scale_max s; redraws := S (redraws s) |}.

(** ** The array store *)

(** The contents of the array at [l]. *)
Definition read (st : list (list Point)) (l : loc) : list Point :=
  default [] (st !! l).

(** [arr.push(p1, ..., pn)] *)
Definition push (l : loc) (ps : list Point) (st : list (list Point))
  : list (list Point) :=
  alter (λ d, d ++ ps) l st.

(** [arr.length = 0] *)
Definition clear (l : loc) (st : list (list Point)) : list (list Point) :=
  <[l := []]> st.

(** A new array object with contents [d]: [[...d]] or [[]]. *)
Definition alloc (d : list Point) (st : list (list Point))
  : loc * list (list Point) :=
  (length st, st ++ [d]).

(** The samples shown by dataset [i]: [chart.data.datasets[i].data]. *)
Definition slot_data (s : State) (i : nat) : list Point :=
  match datasets s !! i with
  | Some l => read (store s) l
  | None => []
  end.

(** [Array.prototype.forEach((x, i) => body)], threading the state that the
    callback mutates. *)
Fixpoint forEach {A B : Type} (body : nat → A → B → B) (i : nat)
    (l : list A) (acc : B) : B :=
  match l with
  | [] => acc
  | a :: l' => forEach body (S i) l' (body i a acc)
  end.

(** The state after [initChart()]: one empty array per entry of
    [LINE_COLORS], no devices, a zero clock. *)
Definition init : State :=
  {| config := {| hidden := false; paused := false; strength := 100 |};
     devices := []; username := "";
     tFrameBegin := 0; tFrameEnd := 0; tNow := 0; tTotal := 0;
     tUpdatedAt := 0; rafId := 0%N;
     datasets := seq 0 (length LINE_COLORS);
     store := (λ _, []) <$> LINE_COLORS;
     scale_min := - VISIBLE_PAST; scale_max := VISIBLE_FUTURE;
     redraws := 0%nat |}.

(** ** Target resolution *)

Definition mapVibeTargets (frame : VibeFrame) (s : State)
  : gmap string VibeTarget :=
  let targets :=
    foldl (λ m target, <[target_device target := target]> m)
          (∅ : gmap string VibeTarget) (frame_targets frame) in
  match frame_mode frame with
  | OVERRIDE =>
      foldl (λ m device,
               match m !! device_name device with
               | Some _ => m
               | None =>
                   <[device_name device :=
                       {| target_device := device_name device;
                          target_value := frame_value frame |}]> m
               end)
            targets (devices s)
  | EXCLUSIVE => targets
  end.

(** ** Timeline buffer *)

(** The two samples one frame contributes to a device. *)
Definition frame_points (total : Q) (frame : VibeFrame) (target : VibeTarget)
  : list Point :=
  [ {| pt_x := total; pt_y := target_value target |};
    {| pt_x := total + frame_duration frame
                 - Qmin (frame_duration frame * 0.2) STEP_SMOOTHING;
       pt_y := target_value target |} ].

(** Body of the [forEach] of [addFrame]. *)
Definition addFrame_body (s : State) (frame : VibeFrame)
    (targetByDevice : gmap string VibeTarget)
    (i : nat) (device : VibeDevice) (acc : bool * list (list Point))
  : bool * list (list Point) :=
  match datasets s !! i with
  | None => acc
  | Some ds =>
      match targetByDevice !! device_name device with
      | None => acc
      | Some target => (true, push ds (frame_points (tTotal s) frame target) acc.2)
      end
  end.

Definition addFrame (frame : VibeFrame) (s : State) : bool * State :=
  if Qle_bool (frame_duration frame) 0 then (false, s) else
  let targetByDevice := mapVibeTargets frame s in
  let '(hasChanged, st) :=
    forEach (addFrame_body s frame targetByDevice) 0 (devices s)
            (false, store s) in
  let s := set_store st s in
  if negb hasChanged then (false, s) else
  (true, set_tTotal (tTotal s + frame_duration frame) s).

(** ** Playback clock *)

Definition advance (amount : Q) (s : State) : bool * State :=
  if Qle_bool amount 0 then (false, s) else
  let s := set_tFrameBegin (tFrameEnd s) s in
  let s := set_tFrameEnd (tFrameEnd s + amount) s in
  let s := set_tNow (tFrameBegin s) s in
  (true, s).

(** ** Device registry *)

(** The early-exit test of [updateDevices]: same length and the same name at
    every index. *)
Definition same_devices (current updated : list VibeDevice) : bool :=
  (length current =? length updated)%nat &&
  forEach (λ i d acc,
             acc && match updated !! i with
                    | Some u => bool_decide (device_name d = device_name u)
                    | None => false
                    end)
          0 current true.

(** First [forEach] of [updateDevices]: a copy of the array of every current
    device, keyed by device name. *)
Definition capture_body (dsets : list loc) (i : nat) (device : VibeDevice)
    (acc : gmap string loc * list (list Point))
  : gmap string loc * list (list Point) :=
  match dsets !! i with
  | None => acc
  | Some ds =>
      let '(copy, st) := alloc (read acc.2 ds) acc.2 in
      (<[device_name device := copy]> acc.1, st)
  end.

(** Second [forEach] of [updateDevices]: dataset [i] receives the array kept
    for the name of device [i], or a new empty array. *)
Definition rebuild_body (oldDataByName : gmap string loc) (i : nat)
    (device : VibeDevice) (acc : list loc * list (list Point))
  : list loc * list (list Point) :=
  match acc.1 !! i with
  | None => acc
  | Some _ =>
      match oldDataByName !! device_name device with
      | Some data => (<[i := data]> acc.1, acc.2)
      | None =>
          let '(data, st) := alloc [] acc.2 in
          (<[i := data]> acc.1, st)
      end
  end.

(** The final loop of [updateDevices]: the arrays of the datasets from index
    [from] on are emptied in place. *)
Definition clear_from (from : nat) (dsets : list loc)
    (st : list (list Point)) : list (list Point) :=
  foldl (λ st ds, clear ds st) st (drop from dsets).

Definition updateDevices (updatedDevices : list VibeDevice) (s : State)
  : bool * State :=
  if same_devices (devices s) updatedDevices then (false, s) else
  let dsets := datasets s in
  let '(oldDataByName, st) :=
    forEach (capture_body dsets) 0 (devices s) (∅, store s) in
  let devs := take (length dsets) updatedDevices in
  let '(dsets, st) :=
    forEach (rebuild_body oldDataByName) 0 devs (dsets, st) in
  let st := clear_from (length devs) dsets st in
  (true, set_store st (set_datasets dsets (set_devices devs s))).

(** ** Group handling *)

Definition getLength (s : State) : nat :=
  match datasets s !! 0%nat with
  | Some ds => length (read (store s) ds)
  | None => 0
  end.

Definition isEmpty (s : State) : bool := (getLength s =? 0)%nat.

Definition resetGroup (s : State) : bool * State :=
  let s := set_tFrameBegin 0 s in
  let s := set_tFrameEnd 0 s in
  let s := set_tNow 0 s in
  let s := set_tTotal 0 s in
  let s := set_username "" s in
  if isEmpty s then (false, s) else
  (true, set_store (clear_from 0 (datasets s) (store s)) s).

Definition setGroup (group : VibeGroup) (s : State) : bool * State :=
  let '(hasChanged, s) := resetGroup s in
  let hasChanged :=
    hasChanged || negb (bool_decide (username s = group_username group)) in
  let s := set_username (group_username group) s in
  foldl (λ '(hasChanged, s) frame,
           let '(c, s) := addFrame frame s in (c || hasChanged, s))
        (hasChanged, s) (group_frames group).

(** ** Pruning *)

Definition Qlt_bool (a b : Q) : bool := negb (Qle_bool b a).

(** The [while] loop of [prune]: the first index whose point is not before
    the cutoff, or the length of the array. *)
Fixpoint first_past (cutoff : Q) (data : list Point) : nat :=
  match data with
  | [] => 0
  | p :: data' =>
      if Qlt_bool (pt_x p) cutoff then S (first_past cutoff data') else 0
  end.

(** What the callback of [prune] does to one array: [None] when the array is
    left as it is. *)
Definition prune_data (cutoff : Q) (data : list Point)
  : option (list Point) :=
  if (length data =? 0)%nat then None else
  let i := first_past cutoff data in
  if (i =? length data)%nat then Some []
  else if (1 <? i)%nat then Some (drop (i - 1) data)
  else None.

Definition prune_body (cutoff : Q) (ds : loc)
    (acc : bool * list (list Point)) : bool * list (list Point) :=
  match prune_data cutoff (read acc.2 ds) with
  | None => acc
  | Some data => (true, <[ds := data]> acc.2)
  end.

Definition prune (s : State) : bool * State :=
  let cutoff := tNow s - VISIBLE_PAST in
  let '(hasChanged, st) :=
    foldl (λ acc ds, prune_body cutoff ds acc) (false, store s) (datasets s) in
  (hasChanged, set_store st s).

(** ** Update and animation loop *)

(** [update(advance)]; [t] is the reading of [performance.now()]. *)
Definition update (advance : bool) (t : Q) (s : State) : bool * State :=
  let dt := t - tUpdatedAt s in
  let s := set_tUpdatedAt t s in
  if Qle_bool dt 0 then (false, s) else
  let '(hasChanged, s) :=
    if advance && Qlt_bool (tNow s) (tFrameEnd s) then
      let s := set_tNow (Qmin (tNow s + dt) (tFrameEnd s)) s in
      (true, set_scale (tNow s - VISIBLE_PAST) (tNow s + VISIBLE_FUTURE) s)
    else (false, s) in
  let '(pruned, s) := prune s in
  let hasChanged := pruned || hasChanged in
  (hasChanged, if hasChanged then chart_update s else s).

(** [updateLoop()]; [t] is the reading of [performance.now()] and [h] the
    handle returned by [requestAnimationFrame]. *)
Definition updateLoop (t : Q) (h : positive) (s : State) : State :=
  if isEmpty s then (resetGroup (set_rafId 0%N s)).2
  else set_rafId (Npos h) (update true t s).2.

Definition startUpdateLoop (t : Q) (h : positive) (s : State) : State :=
  if negb (rafId s =? 0)%N then s else updateLoop t h s.

(** ** Event dispatch *)

Inductive Message :=
  | Ping
  | UpdateConfig (config : VibeConfig)
  | UpdateDevices (devices : list VibeDevice)
  | ResetGroup
  | SetGroup (group : VibeGroup)
  | AddFrame (frame : VibeFrame)
  | Advance (amount : Q)
  | Unknown (type : string).

(** The [switch] of [ws.onmessage]: the new state and the flag [doUpdate]. *)
Definition dispatch (msg : Message) (t : Q) (h : positive) (s : State)
  : bool * State :=
  match msg with
  | Ping => (false, s)
  | UpdateConfig c => (false, set_config c s)
  | UpdateDevices ds => updateDevices ds s
  | ResetGroup => (false, (resetGroup s).2)
  | SetGroup group =>
      let '(doUpdate, s) := setGroup group s in
      (doUpdate, startUpdateLoop t h s)
  | AddFrame frame =>
      let '(doUpdate, s) := addFrame frame s in
      (doUpdate, startUpdateLoop t h s)
  | Advance amount => advance amount s
  | Unknown _ => (false, s)
  end.

(** [ws.onmessage]; [t1] is read by the update loop when the message starts
    it, [t2] by the final [update(false)]. *)
Definition onmessage (msg : Message) (t1 t2 : Q) (h : positive) (s : State)
  : State :=
  let '(doUpdate, s) := dispatch msg t1 h s in
  if doUpdate then (update false t2 s).2 else s.

(** ** Runs of operations *)

Inductive Op :=
  | OAdvance (amount : Q)
  | OUpdate (advance : bool) (t : Q)
  | OAddFrame (frame : VibeFrame)
  | OSetGroup (group : VibeGroup)
  | OResetGroup
  | OUpdateDevices (devices : list VibeDevice)
  | OPrune
  | OUpdateLoop (t : Q) (h : positive)
  | OMessage (msg : Message) (t1 t2 : Q) (h : positive).

Definition step (o : Op) (s : State) : State :=
  match o with
  | OAdvance amount => (advance amount s).2
  | OUpdate adv t => (update adv t s).2
  | OAddFrame frame => (addFrame frame s).2
  | OSetGroup group => (setGroup group s).2
  | OResetGroup => (resetGroup s).2
  | OUpdateDevices ds => (updateDevices ds s).2
  | OPrune => (prune s).2
  | OUpdateLoop t h => updateLoop t h s
  | OMessage msg t1 t2 h => onmessage msg t1 t2 h s
  end.

Definition run (ops : list Op) (s : State) : State :=
  foldl (λ s o, step o s) s ops.

(** ** Cursor and presentation helpers *)

(** The [for] loop of [getChartValueAtTime]: [last] is the last point seen
    so far; the loop breaks at the first point after [time]. *)
Fixpoint getChartValueAtTime_loop (time : Q) (data : list Point)
    (last : option Point) : option Point :=
  match data with
  | [] => last
  | p :: data' =>
      if Qlt_bool time (pt_x p) then last
      else getChartValueAtTime_loop time data' (Some p)
  end.

(** [getChartValueAtTime(data, time)]; [None] is [null]. *)
Definition getChartValueAtTime (data : list Point) (time : Q) : option Q :=
  pt_y <$> getChartValueAtTime_loop time data None.

(** [getLineColor(i)] for an array index [i]; [None] would be
    [undefined]. *)
Definition getLineColor (i : nat) : option RGB :=
  LINE_COLORS !! (i mod length LINE_COLORS)%nat.

(** The top of the cursor line computed by [afterDatasetsDraw] of the
    plugin [cursorLine]; [getPixelForValue] is the mapping of the y scale
    and [bottom] the bottom of the chart area. *)
Definition cursorLineTop (getPixelForValue : Q → Q) (bottom : Q)
    (s : State) : Q :=
  foldl (λ lineTop ds,
           let data := read (store s) ds in
           if (length data =? 0)%nat then lineTop else
           match getChartValueAtTime data (tNow s) with
           | None => lineTop
           | Some vNow =>
               let y := getPixelForValue vNow in
               if Qlt_bool y lineTop then y else lineTop
           end)
        bottom (datasets s).

(** [n.toString()] for an integer [n]. *)
Definition toString (n : Z) : string := NilZero.string_of_int (Z.to_int n).

(** [str.padStart(targetLength, c)] for a one-character pad string. *)
Definition padStart (targetLength : nat) (c : Ascii.ascii) (str : string)
  : string :=
  String.string_of_list_ascii (replicate (targetLength - String.length str) c)
    +:+ str.

(** [formatTime(ms)]: [Math.floor] is [Qfloor], [%] is the remainder with
    the sign of the dividend. *)
Definition formatTime (ms : Q) : string :=
  let s := Qfloor (ms / 1000) in
  let minutes := padStart 2 "0"%char (toString (s / 60)%Z) in
  let seconds := padStart 2 "0"%char (toString (Z.rem s 60)) in
  minutes +:+ ":" +:+ seconds.

(** ** Notions used by the statements *)

(** What [initChart] establishes and every operation keeps, as long as the
    device lists received name each device once: a device has a dataset,
    device names are distinct, distinct datasets hold distinct arrays, and
    every dataset's array exists. *)
Record state_ok (s : State) : Prop := {
  ok_capacity : (length (devices s) ≤ length (datasets s))%nat;
  ok_names : NoDup (device_name <$> devices s);
  ok_datasets : NoDup (datasets s);
  ok_store : ∀ l, l ∈ datasets s → (l < length (store s))%nat
}.

(** The part of well-formedness that [addFrame] relies on: every device
    has a dataset, every dataset's array exists, and the array of a
    device's dataset is held by no other dataset. *)
Record own_arrays (s : State) : Prop := {
  own_capacity : (length (devices s) ≤ length (datasets s))%nat;
  own_store : ∀ l, l ∈ datasets s → (l < length (store s))%nat;
  own_unshared :
    ∀ i j l, (i < length (devices s))%nat →
             datasets s !! i = Some l → datasets s !! j = Some l → i = j
}.

(** The device lists a run receives name each device once. *)
Definition names_distinct (o : Op) : Prop :=
  match o with
  | OUpdateDevices ds | OMessage (UpdateDevices ds) _ _ _ =>
      NoDup (device_name <$> ds)
  | _ => True
  end.

(** The explicit targets of a frame that name [n], in order. *)
Definition targets_for (n : string) (ts : list VibeTarget)
  : list VibeTarget :=
  filter (λ t, target_device t = n) ts.

(** The samples a frame gives to a device, [tb] being the resolved
    targets. *)
Definition appended (s : State) (frame : VibeFrame)
    (tb : gmap string VibeTarget) (device : VibeDevice) : list Point :=
  match tb !! device_name device with
  | Some target => frame_points (tTotal s) frame target
  | None => []
  end.

(** Sample times never decrease along the array. *)
Definition nondecreasing (data : list Point) : Prop :=
  ∀ i j p q, (i ≤ j)%nat → data !! i = Some p → data !! j = Some q →
             pt_x p <= pt_x q.

(** The invariant of the timeline buffer: every array is ordered by time
    and no sample lies after [tTotal]. *)
Definition timeline_ok (s : State) : Prop :=
  ∀ i, nondecreasing (slot_data s i) ∧
       ∀ p, p ∈ slot_data s i → pt_x p <= tTotal s.

(** The array after the callback of [prune]. *)
Definition pruned (cutoff : Q) (data : list Point) : list Point :=
  default data (prune_data cutoff data).

(** [frameBegin ≤ now ≤ frameEnd], and with [full], [frameEnd ≤ total]. *)
Definition clock_inv (full : bool) (s : State) : Prop :=
  tFrameBegin s <= tNow s ∧ tNow s <= tFrameEnd s ∧
  (full = true → tFrameEnd s <= tTotal s).

(** The condition under which [frameEnd ≤ total] survives an operation:
    an [advance] does not move [tFrameEnd] past [tTotal]. *)
Definition advance_within (o : Op) (s : State) : Prop :=
  match o with
  | OAdvance amount | OMessage (Advance amount) _ _ _ =>
      tFrameEnd s + amount <= tTotal s
  | _ => True
  end.

(** Every [advance] of the run stays within [tTotal]. *)
Fixpoint advances_within (ops : list Op) (s : State) : Prop :=
  match ops with
  | [] => True
  | o :: ops => advance_within o s ∧ advances_within ops (step o s)
  end.

(** What lies outside the timeline data: the configuration, the visible
    window, the redraw count, the time stamp and the loop handle are in
    [s'] what they are in [s]. *)
Definition quiet (s s' : State) : Prop :=
  config s' = config s ∧ scale_min s' = scale_min s ∧
  scale_max s' = scale_max s ∧ redraws s' = redraws s ∧
  tUpdatedAt s' = tUpdatedAt s ∧ rafId s' = rafId s.

(** The device list, the array each dataset holds and the number of arrays
    are in [s'] what they are in [s]. *)
Definition same_wiring (s s' : State) : Prop :=
  devices s' = devices s ∧ datasets s' = datasets s ∧
  length (store s') = length (store s).

(** The operation carries a device list. *)
Definition carries_devices (o : Op) : bool :=
  match o with
  | OUpdateDevices _ | OMessage (UpdateDevices _) _ _ _ => true
  | _ => false
  end.

(** The operation carries a configuration. *)
Definition carries_config (o : Op) : bool :=
  match o with
  | OMessage (UpdateConfig _) _ _ _ => true
  | _ => false
  end.


(** The first five assignments of [resetGroup]. *)
Definition zero_clock (s : State) : State :=
  set_username "" (set_tTotal 0 (set_tNow 0
    (set_tFrameEnd 0 (set_tFrameBegin 0 s)))).

(** The decimal digit [n], for [0 ≤ n ≤ 9], and the two-digit numeral of
    [n], for [0 ≤ n ≤ 99]. *)
Definition digit (n : Z) : Ascii.ascii :=
  Ascii.ascii_of_nat (48 + Z.to_nat n).

Definition two_digits (n : Z) : string :=
  String (digit (n / 10)) (String (digit (n mod 10)) EmptyString).

(** ** Concrete inputs *)

Definition dev (n : string) : VibeDevice := {| device_name := n |}.

Definition target (n : string) (v : Q) : VibeTarget :=
  {| target_device := n; target_value := v |}.

Definition pt (x y : Q) : Point := {| pt_x := x; pt_y := y |}.

(** One second at full intensity for every device. *)
Definition frameX : VibeFrame :=
  {| frame_id := 1; frame_duration := 1000; frame_value := 1;
     frame_targets := []; frame_mode := OVERRIDE |}.

(** One second at half intensity for the device B alone. *)
Definition frameB : VibeFrame :=
  {| frame_id := 2; frame_duration := 1000; frame_value := 1;
     frame_targets := [target "B" 0.5]; frame_mode := EXCLUSIVE |}.

(** The state after the device list [X]. *)
Definition stateX : State := (updateDevices [dev "X"] init).2.

(** Three frames of one second for the device X, seen at [tNow = 6950]. *)
Definition stateX3 : State :=
  set_tNow 6950 (run (OAddFrame <$> [frameX; frameX; frameX]) stateX).


(** * Properties *)

(** ** Comparisons on rationals *)

Lemma Qle_bool_true (a b : Q) : Qle_bool a b = true ↔ a <= b.
Proof. apply Qle_bool_iff. Qed.

Lemma Qle_bool_false (a b : Q) : Qle_bool a b = false ↔ b < a.
Proof.
  split; intros H.
  - apply Qnot_le_lt. intros Hle. apply Qle_bool_true in Hle. congruence.
  - destruct (Qle_bool a b) eqn:E; [|done].
    apply Qle_bool_true in E. lra.
Qed.

Lemma Qlt_bool_true (a b : Q) : Qlt_bool a b = true ↔ a < b.
Proof.
  unfold Qlt_bool. rewrite negb_true_iff. apply Qle_bool_false.
Qed.

Lemma Qlt_bool_false (a b : Q) : Qlt_bool a b = false ↔ b <= a.
Proof.
  unfold Qlt_bool. rewrite negb_false_iff. apply Qle_bool_true.
Qed.

(** ** Setters *)

Lemma set_store_id (s : State) : set_store (store s) s = s.
Proof. by destruct s. Qed.

(** ** Playback clock and guards (C7) *)

Lemma advance_rejects (amount : Q) (s : State) :
  amount <= 0 → advance amount s = (false, s).
Proof.
  intros H. unfold advance. by apply Qle_bool_true in H as ->.
Qed.

Lemma addFrame_rejects (frame : VibeFrame) (s : State) :
  frame_duration frame <= 0 → addFrame frame s = (false, s).
Proof.
  intros H. unfold addFrame. by apply Qle_bool_true in H as ->.
Qed.

Lemma advance_accepts (amount : Q) (s : State) :
  0 < amount →
  advance amount s =
    (true, set_tNow (tFrameEnd s)
             (set_tFrameEnd (tFrameEnd s + amount)
                (set_tFrameBegin (tFrameEnd s) s))).
Proof.
  intros H. unfold advance. by apply Qle_bool_false in H as ->.
Qed.

(** C7.  [advance] with a non-positive amount and [addFrame] with a
    non-positive duration return [false] and leave the whole state as it
    was.  For a positive amount, [advance] returns [true], moves
    [tFrameBegin] to the previous [tFrameEnd], adds the amount to [tFrameEnd]
    and puts [tNow] at the new [tFrameBegin]; nothing else changes. *)
Theorem advance_and_guards :
  (∀ amount s, amount <= 0 → advance amount s = (false, s)) ∧
  (∀ frame s, frame_duration frame <= 0 → addFrame frame s = (false, s)) ∧
  (∀ amount s, 0 < amount →
     (advance amount s).1 = true ∧
     tFrameBegin (advance amount s).2 = tFrameEnd s ∧
     tFrameEnd (advance amount s).2 = tFrameEnd s + amount ∧
     tNow (advance amount s).2 = tFrameBegin (advance amount s).2 ∧
     tTotal (advance amount s).2 = tTotal s ∧
     devices (advance amount s).2 = devices s ∧
     datasets (advance amount s).2 = datasets s ∧
     store (advance amount s).2 = store s).
Proof.
  split; [exact advance_rejects|]. split; [exact addFrame_rejects|].
  intros amount s H. by rewrite advance_accepts.
Qed.

Lemma advance_and_guards_witness :
  advance 0 init = (false, init) ∧
  addFrame {| frame_id := 7; frame_duration := 0; frame_value := 1;
              frame_targets := []; frame_mode := OVERRIDE |} init
    = (false, init) ∧
  tFrameEnd (advance 250 init).2 = 0 + 250.
Proof.
  destruct advance_and_guards as (Ha & Hf & Hp).
  split; [apply Ha; lra|]. split; [apply Hf; simpl; lra|].
  apply (Hp 250 init). lra.
Defined.

(** ** Target resolution (C5) *)

Section resolution.
Implicit Types (m : gmap string VibeTarget) (n : string).

Lemma explicit_lookup (ts : list VibeTarget) m n :
  foldl (λ m target, <[target_device target := target]> m) m ts !! n =
    match last (targets_for n ts) with
    | Some t => Some t
    | None => m !! n
    end.
Proof.
  revert m. induction ts as [|t ts IH]; intros m; [done|].
  simpl. rewrite IH. unfold targets_for.
  destruct (decide (target_device t = n)) as [Hn|Hn].
  - rewrite filter_cons_True by done. rewrite last_cons.
    destruct (last _); [done|]. subst n. by rewrite lookup_insert_eq.
  - rewrite filter_cons_False by done. by rewrite lookup_insert_ne.
Qed.

Lemma fill_lookup (v : Q) (devs : list VibeDevice) m n :
  foldl (λ m device,
           match m !! device_name device with
           | Some _ => m
           | None =>
               <[device_name device :=
                   {| target_device := device_name device;
                      target_value := v |}]> m
           end) m devs !! n =
    match m !! n with
    | Some t => Some t
    | None =>
        if bool_decide (n ∈ device_name <$> devs)
        then Some {| target_device := n; target_value := v |}
        else None
    end.
Proof.
  revert m. induction devs as [|d devs IH]; intros m.
  { simpl. by destruct (m !! n). }
  simpl foldl. rewrite IH. rewrite fmap_cons.
  destruct (decide (n = device_name d)) as [->|Hne].
  - rewrite (bool_decide_eq_true_2 (device_name d ∈ _ :: _)) by left.
    destruct (m !! device_name d) eqn:E; [by rewrite E|].
    by rewrite lookup_insert_eq.
  - assert (bool_decide (n ∈ device_name d :: (device_name <$> devs))
            = bool_decide (n ∈ device_name <$> devs)) as ->.
    { apply bool_decide_ext. rewrite elem_of_cons.
      split; [by intros [?|?]|by right]. }
    destruct (m !! device_name d) eqn:E; [done|].
    by rewrite lookup_insert_ne.
Qed.
End resolution.

Lemma mapVibeTargets_lookup (frame : VibeFrame) (s : State) (n : string) :
  mapVibeTargets frame s !! n =
    match last (targets_for n (frame_targets frame)) with
    | Some t => Some t
    | None =>
        match frame_mode frame with
        | OVERRIDE =>
            if bool_decide (n ∈ device_name <$> devices s)
            then Some {| target_device := n;
                         target_value := frame_value frame |}
            else None
        | EXCLUSIVE => None
        end
    end.
Proof.
  unfold mapVibeTargets. destruct (frame_mode frame).
  - rewrite fill_lookup, explicit_lookup, lookup_empty.
    by destruct (last _).
  - rewrite explicit_lookup, lookup_empty. by destruct (last _).
Qed.

(** C5.  The resolved target of a device name is the last explicit target
    of the frame naming it; without one it is the frame's value for a known
    device in OVERRIDE mode, and there is no entry otherwise.  With devices
    A, B, explicit target A:0.5 and value 0.9, OVERRIDE resolves A:0.5,
    B:0.9 and EXCLUSIVE resolves A:0.5 only. *)
Theorem mapVibeTargets_resolution :
  (∀ frame s n,
     mapVibeTargets frame s !! n =
       match last (targets_for n (frame_targets frame)) with
       | Some t => Some t
       | None =>
           match frame_mode frame with
           | OVERRIDE =>
               if bool_decide (n ∈ device_name <$> devices s)
               then Some (target n (frame_value frame))
               else None
           | EXCLUSIVE => None
           end
       end) ∧
  (∀ s id, devices s = [dev "A"; dev "B"] →
     mapVibeTargets {| frame_id := id; frame_duration := 1000;
                       frame_value := 0.9;
                       frame_targets := [target "A" 0.5];
                       frame_mode := OVERRIDE |} s
       = {[ "A" := target "A" 0.5; "B" := target "B" 0.9 ]} ∧
     mapVibeTargets {| frame_id := id; frame_duration := 1000;
                       frame_value := 0.9;
                       frame_targets := [target "A" 0.5];
                       frame_mode := EXCLUSIVE |} s
       = {[ "A" := target "A" 0.5 ]}).
Proof.
  split; [exact mapVibeTargets_lookup|].
  intros s id Hd. unfold mapVibeTargets. rewrite Hd. simpl.
  split; [|by rewrite insert_empty].
  rewrite lookup_insert_eq, lookup_insert_ne by done.
  rewrite lookup_empty, insert_empty.
  apply map_eq. intros n.
  destruct (decide (n = "A")) as [->|HA]; [by simplify_map_eq|].
  destruct (decide (n = "B")) as [->|HB]; by simplify_map_eq.
Qed.

Lemma mapVibeTargets_resolution_witness :
  mapVibeTargets {| frame_id := 3; frame_duration := 1000;
                    frame_value := 0.9;
                    frame_targets := [target "A" 0.5];
                    frame_mode := OVERRIDE |}
                 (set_devices [dev "A"; dev "B"] init)
    = {[ "A" := target "A" 0.5; "B" := target "B" 0.9 ]}.
Proof.
  apply (proj2 mapVibeTargets_resolution
           (set_devices [dev "A"; dev "B"] init) 3%Z).
  reflexivity.
Defined.

(** ** The store *)

Section store.
Implicit Types (st : list (list Point)) (l : loc).

Lemma read_push_eq st l ps :
  (l < length st)%nat → read (push l ps st) l = read st l ++ ps.
Proof.
  intros Hl. unfold read, push. rewrite list_lookup_alter_eq.
  destruct (lookup_lt_is_Some_2 st l Hl) as [d Hd]. by rewrite Hd.
Qed.

Lemma read_push_ne st l l' ps : l ≠ l' → read (push l ps st) l' = read st l'.
Proof. intros Hl. unfold read, push. by rewrite list_lookup_alter_ne. Qed.

Lemma length_push st l ps : length (push l ps st) = length st.
Proof. apply length_alter. Qed.

Lemma read_clear_eq st l : read (clear l st) l = [].
Proof.
  unfold read, clear. destruct (decide (l < length st)%nat).
  - by rewrite list_lookup_insert_eq.
  - rewrite list_insert_ge by lia. by rewrite lookup_ge_None_2 by lia.
Qed.

Lemma read_clear_ne st l l' : l ≠ l' → read (clear l st) l' = read st l'.
Proof. intros Hl. unfold read, clear. by rewrite list_lookup_insert_ne. Qed.

Lemma length_clear st l : length (clear l st) = length st.
Proof. apply length_insert. Qed.

Lemma read_write_eq st l d :
  (l < length st)%nat → read (<[l := d]> st) l = d.
Proof. intros Hl. unfold read. by rewrite list_lookup_insert_eq. Qed.

Lemma read_write_ne st l l' d : l ≠ l' → read (<[l := d]> st) l' = read st l'.
Proof. intros Hl. unfold read. by rewrite list_lookup_insert_ne. Qed.

Lemma read_app_l st ext l : (l < length st)%nat → read (st ++ ext) l = read st l.
Proof. intros Hl. unfold read. by rewrite lookup_app_l. Qed.

Lemma read_alloc st d : read (alloc d st).2 (alloc d st).1 = d.
Proof. unfold read, alloc. simpl. by rewrite list_lookup_middle. Qed.
End store.

(** ** The loop of [addFrame] *)

Section addFrame_loop.
Variables (s : State) (frame : VibeFrame) (tb : gmap string VibeTarget).

Lemma addFrame_loop_idle (devs : list VibeDevice) i acc :
  (∀ d, d ∈ devs → tb !! device_name d = None) →
  forEach (addFrame_body s frame tb) i devs acc = acc.
Proof.
  revert i acc. induction devs as [|d devs IH]; intros i acc Hn; [done|].
  simpl. rewrite IH by (intros; apply Hn; by right).
  unfold addFrame_body. rewrite (Hn d) by left.
  by destruct (datasets s !! i).
Qed.

Lemma addFrame_loop_length (devs : list VibeDevice) i acc :
  length (forEach (addFrame_body s frame tb) i devs acc).2 = length acc.2.
Proof.
  revert i acc. induction devs as [|d devs IH]; intros i acc; [done|].
  simpl. rewrite IH. unfold addFrame_body.
  destruct (datasets s !! i); [|done].
  destruct (tb !! device_name d); [|done]. apply length_push.
Qed.

Lemma addFrame_loop_changed (devs : list VibeDevice) i acc :
  (i + length devs ≤ length (datasets s))%nat →
  (forEach (addFrame_body s frame tb) i devs acc).1 = true ↔
    acc.1 = true ∨ ∃ d, d ∈ devs ∧ is_Some (tb !! device_name d).
Proof.
  revert i acc. induction devs as [|d devs IH]; intros i acc Hlen.
  { simpl. split; [by left|]. intros [H|(d & Hd & _)]; [done|].
    by apply not_elem_of_nil in Hd. }
  simpl in *. rewrite IH by lia. unfold addFrame_body.
  destruct (lookup_lt_is_Some_2 (datasets s) i) as [l ->]; [lia|].
  destruct (tb !! device_name d) as [tg|] eqn:E; simpl.
  - split; [|by left]. intros _. right. exists d. split; [left|].
    by rewrite E.
  - split.
    + intros [H|(d' & Hd' & Hs)]; [by left|]. right. exists d'.
      split; [by right|done].
    + intros [H|(d' & Hd' & Hs)]; [by left|]. right. exists d'.
      apply elem_of_cons in Hd' as [->|Hd']; [|done].
      rewrite E in Hs. by destruct Hs.
Qed.

Lemma addFrame_loop_read (devs : list VibeDevice) i acc j l :
  NoDup (datasets s) →
  datasets s !! j = Some l →
  (l < length acc.2)%nat →
  read (forEach (addFrame_body s frame tb) i devs acc).2 l =
    read acc.2 l ++
      (if decide (i ≤ j)%nat
       then from_option (appended s frame tb) [] (devs !! (j - i)%nat)
       else []).
Proof.
  intros Hnd Hj. revert i acc.
  induction devs as [|d devs IH]; intros i acc Hl.
  { simpl. case_decide; by rewrite app_nil_r. }
  simpl forEach. rewrite IH; last first.
  { unfold addFrame_body. destruct (datasets s !! i); [|done].
    destruct (tb !! device_name d); [|done]. simpl.
    by rewrite length_push. }
  destruct (decide (i = j)) as [->|Hij].
  - rewrite decide_False, decide_True by lia. rewrite Nat.sub_diag.
    simpl. rewrite app_nil_r. unfold addFrame_body, appended.
    rewrite Hj. destruct (tb !! device_name d); simpl.
    + by apply read_push_eq.
    + by rewrite app_nil_r.
  - assert (read (addFrame_body s frame tb i d acc).2 l = read acc.2 l) as ->.
    { unfold addFrame_body.
      destruct (datasets s !! i) as [l'|] eqn:Hi; [|done].
      destruct (tb !! device_name d); [|done]. simpl.
      apply read_push_ne. intros ->.
      apply Hij. by eapply NoDup_lookup. }
    f_equal. destruct (decide (i < j)%nat).
    + rewrite !decide_True by lia.
      replace (j - i)%nat with (S (j - S i)) by lia. done.
    + by rewrite !decide_False by lia.
Qed.
(** The same for an array that, among the datasets the loop visits, only
    dataset [j] holds. *)
Lemma addFrame_loop_read_own (devs : list VibeDevice) i acc j l :
  datasets s !! j = Some l →
  (∀ k, (i ≤ k < i + length devs)%nat → datasets s !! k = Some l → k = j) →
  (l < length acc.2)%nat →
  read (forEach (addFrame_body s frame tb) i devs acc).2 l =
    read acc.2 l ++
      (if decide (i ≤ j)%nat
       then from_option (appended s frame tb) [] (devs !! (j - i)%nat)
       else []).
Proof.
  intros Hj. revert i acc.
  induction devs as [|d devs IH]; intros i acc Hown Hl.
  { simpl. case_decide; by rewrite app_nil_r. }
  simpl forEach. rewrite IH; last first.
  { unfold addFrame_body. destruct (datasets s !! i); [|done].
    destruct (tb !! device_name d); [|done]. simpl.
    by rewrite length_push. }
  { intros k Hk. apply Hown. simpl. lia. }
  destruct (decide (i = j)) as [->|Hij].
  - rewrite decide_False, decide_True by lia. rewrite Nat.sub_diag.
    simpl. rewrite app_nil_r. unfold addFrame_body, appended.
    rewrite Hj. destruct (tb !! device_name d); simpl.
    + by apply read_push_eq.
    + by rewrite app_nil_r.
  - assert (read (addFrame_body s frame tb i d acc).2 l = read acc.2 l) as ->.
    { unfold addFrame_body.
      destruct (datasets s !! i) as [l'|] eqn:Hi; [|done].
      destruct (tb !! device_name d); [|done]. simpl.
      apply read_push_ne. intros ->.
      apply Hij, Hown; [simpl; lia|done]. }
    f_equal. destruct (decide (i < j)%nat).
    + rewrite !decide_True by lia.
      replace (j - i)%nat with (S (j - S i)) by lia. done.
    + by rewrite !decide_False by lia.
Qed.
End addFrame_loop.

(** ** [addFrame] (C3, C10) *)

Lemma addFrame_unfold (frame : VibeFrame) (s : State) :
  0 < frame_duration frame →
  addFrame frame s =
    let r := forEach (addFrame_body s frame (mapVibeTargets frame s)) 0
               (devices s) (false, store s) in
    if r.1
    then (true, set_tTotal (tTotal s + frame_duration frame)
                  (set_store r.2 s))
    else (false, set_store r.2 s).
Proof.
  intros H. unfold addFrame. apply Qle_bool_false in H as ->.
  simpl. by destruct (forEach _ _ _ _) as [[|] st].
Qed.

Lemma addFrame_idle (frame : VibeFrame) (s : State) :
  (∀ d, d ∈ devices s → mapVibeTargets frame s !! device_name d = None) →
  addFrame frame s = (false, s).
Proof.
  intros Hn. destruct (Qlt_le_dec 0 (frame_duration frame)) as [Hd|Hd].
  - rewrite addFrame_unfold by done.
    rewrite addFrame_loop_idle by done. simpl. by rewrite set_store_id.
  - by apply addFrame_rejects.
Qed.

Lemma targets_for_absent (n : string) (ts : list VibeTarget) :
  (∀ t, t ∈ ts → target_device t ≠ n) → targets_for n ts = [].
Proof.
  intros H. unfold targets_for. induction ts as [|t ts IH]; [done|].
  rewrite filter_cons_False by (apply H; left).
  apply IH. intros t' Ht'. apply H. by right.
Qed.

(** C10.  When no device of the current list resolves a target, [addFrame]
    returns [false] and the state, with [tTotal] and every array, is what it
    was, whatever the duration and the targets of the frame.  This is so
    with an empty device list, and for an EXCLUSIVE frame whose targets name
    no device of the list. *)
Theorem addFrame_without_target :
  (∀ frame s,
     (∀ d, d ∈ devices s → mapVibeTargets frame s !! device_name d = None) →
     addFrame frame s = (false, s)) ∧
  (∀ frame s, devices s = [] → addFrame frame s = (false, s)) ∧
  (∀ frame s,
     frame_mode frame = EXCLUSIVE →
     (∀ t d, t ∈ frame_targets frame → d ∈ devices s →
             target_device t ≠ device_name d) →
     addFrame frame s = (false, s)).
Proof.
  split; [exact addFrame_idle|]. split.
  - intros frame s Hd. apply addFrame_idle. rewrite Hd.
    intros d Hin. by apply not_elem_of_nil in Hin.
  - intros frame s Hm Habs. apply addFrame_idle. intros d Hd.
    rewrite mapVibeTargets_lookup, Hm.
    rewrite targets_for_absent; [done|]. intros t Ht. by apply Habs.
Qed.

Lemma addFrame_without_target_witness :
  addFrame {| frame_id := 4; frame_duration := 1000; frame_value := 0.9;
              frame_targets := [target "Z" 0.5]; frame_mode := EXCLUSIVE |}
           (set_devices [dev "A"; dev "B"] init)
    = (false, set_devices [dev "A"; dev "B"] init) ∧
  addFrame {| frame_id := 5; frame_duration := 1000; frame_value := 0.9;
              frame_targets := [target "Z" 0.5]; frame_mode := OVERRIDE |}
           init
    = (false, init).
Proof.
  destruct addFrame_without_target as (_ & Hempty & Hexcl). split.
  - apply Hexcl; [reflexivity|]. simpl. intros t d Ht Hd.
    apply list_elem_of_singleton in Ht as ->.
    apply elem_of_cons in Hd as [->|Hd]; [done|].
    apply list_elem_of_singleton in Hd as ->. done.
  - apply Hempty. reflexivity.
Defined.

Lemma addFrame_fields (frame : VibeFrame) (s : State) :
  devices (addFrame frame s).2 = devices s ∧
  datasets (addFrame frame s).2 = datasets s ∧
  length (store (addFrame frame s).2) = length (store s) ∧
  tFrameBegin (addFrame frame s).2 = tFrameBegin s ∧
  tFrameEnd (addFrame frame s).2 = tFrameEnd s ∧
  tNow (addFrame frame s).2 = tNow s ∧
  tTotal s <= tTotal (addFrame frame s).2.
Proof.
  destruct (Qlt_le_dec 0 (frame_duration frame)) as [Hd|Hd].
  - rewrite addFrame_unfold by done. cbv zeta.
    pose proof (addFrame_loop_length s frame (mapVibeTargets frame s)
                  (devices s) 0 (false, store s)) as Hlen.
    destruct (forEach _ _ _ _).1; simpl; repeat split; try done; lra.
  - rewrite addFrame_rejects by done. repeat split; try done. simpl. lra.
Qed.

(** The effect of a frame of positive duration on a well-formed state. *)
Lemma addFrame_effect (frame : VibeFrame) (s : State) :
  state_ok s → 0 < frame_duration frame →
  let resolved := mapVibeTargets frame s in
  let r := addFrame frame s in
  (∀ i, slot_data r.2 i =
          slot_data s i ++
            from_option (appended s frame resolved) [] (devices s !! i)) ∧
  (r.1 = true ↔
     ∃ device, device ∈ devices s ∧
               is_Some (resolved !! device_name device)) ∧
  tTotal r.2 = (if r.1 then tTotal s + frame_duration frame else tTotal s).
Proof.
  intros [Hcap Hnames Hnd Hst] Hdur resolved r.
  pose proof (addFrame_fields frame s) as (_ & Hds & _).
  subst r. revert Hds. rewrite addFrame_unfold by done. cbv zeta.
  fold resolved.
  set (loop := forEach _ 0%nat (devices s) (false, store s)).
  intros Hds.
  assert (∀ i l, datasets s !! i = Some l →
            read loop.2 l =
              read (store s) l ++
                from_option (appended s frame resolved) [] (devices s !! i))
    as Hread.
  { intros i l Hi. unfold loop.
    rewrite (addFrame_loop_read s frame resolved _ _ _ i l); try done.
    - rewrite decide_True by lia. by rewrite Nat.sub_0_r.
    - simpl. apply Hst. by eapply list_elem_of_lookup_2. }
  split; [|split].
  - intros i. unfold slot_data. rewrite Hds.
    destruct (datasets s !! i) as [l|] eqn:Hi.
    + rewrite <- (Hread i l Hi). by destruct loop.1.
    + apply lookup_ge_None in Hi. by rewrite lookup_ge_None_2 by lia.
  - assert (loop.1 = true ↔
            ∃ device, device ∈ devices s ∧
                      is_Some (resolved !! device_name device)) as <-.
    { unfold loop. rewrite addFrame_loop_changed by (simpl; lia). simpl.
      split; [by intros [?|?]|by right]. }
    by destruct loop.1.
  - by destruct loop.1.
Qed.

Lemma state_ok_own (s : State) : state_ok s → own_arrays s.
Proof.
  intros [Hcap Hnames Hnd Hst]. split; [done..|].
  intros i j l _ Hi Hj. by eapply NoDup_lookup.
Qed.

Lemma addFrame_own (frame : VibeFrame) (s : State) :
  own_arrays s → own_arrays (addFrame frame s).2.
Proof.
  intros [Hcap Hst Hown].
  pose proof (addFrame_fields frame s) as (Hd & Hds & Hlen & _).
  split; rewrite ?Hd, ?Hds, ?Hlen; done.
Qed.

(** The effect of a frame of positive duration when the devices' datasets
    hold arrays of their own. *)
Lemma addFrame_effect_own (frame : VibeFrame) (s : State) :
  own_arrays s → 0 < frame_duration frame →
  let resolved := mapVibeTargets frame s in
  let r := addFrame frame s in
  (∀ i, slot_data r.2 i =
          slot_data s i ++
            from_option (appended s frame resolved) [] (devices s !! i)) ∧
  (r.1 = true ↔
     ∃ device, device ∈ devices s ∧
               is_Some (resolved !! device_name device)) ∧
  tTotal r.2 = (if r.1 then tTotal s + frame_duration frame else tTotal s).
Proof.
  intros [Hcap Hst Hown] Hdur resolved r.
  pose proof (addFrame_fields frame s) as (_ & Hds & _).
  subst r. revert Hds. rewrite addFrame_unfold by done. cbv zeta.
  fold resolved.
  set (loop := forEach _ 0%nat (devices s) (false, store s)).
  intros Hds.
  assert (∀ i l, datasets s !! i = Some l →
            read loop.2 l =
              read (store s) l ++
                from_option (appended s frame resolved) [] (devices s !! i))
    as Hread.
  { intros i l Hi. unfold loop.
    rewrite (addFrame_loop_read_own s frame resolved _ _ _ i l); try done.
    - rewrite decide_True by lia. by rewrite Nat.sub_0_r.
    - intros k Hk Hkl. simpl in Hk. by apply (Hown k i l); [lia|..].
    - simpl. apply Hst. by eapply list_elem_of_lookup_2. }
  split; [|split].
  - intros i. unfold slot_data. rewrite Hds.
    destruct (datasets s !! i) as [l|] eqn:Hi.
    + rewrite <- (Hread i l Hi). by destruct loop.1.
    + apply lookup_ge_None in Hi. by rewrite lookup_ge_None_2 by lia.
  - assert (loop.1 = true ↔
            ∃ device, device ∈ devices s ∧
                      is_Some (resolved !! device_name device)) as <-.
    { unfold loop. rewrite addFrame_loop_changed by (simpl; lia). simpl.
      split; [by intros [?|?]|by right]. }
    by destruct loop.1.
  - by destruct loop.1.
Qed.

(** C3, as the code has it.  When every device has a dataset whose array
    exists and is held by no other dataset, a frame of positive duration
    appends to the array of every device of the list that resolves a target
    the two samples [(tTotal, v)] and
    [(tTotal + duration - min(duration * 0.2, 100), v)], [v] being the
    resolved value, and nothing to the other datasets; it returns [true]
    iff some device of the list resolved a target, and then [tTotal] grows
    by the duration, otherwise [tTotal] stays.  With the device list [X]
    and the frame (1000, 1.0, no targets, OVERRIDE) on the initial state,
    the array of X becomes (0,1),(900,1) and [tTotal] becomes 1000. *)
Theorem addFrame_appends :
  (∀ frame s,
     own_arrays s → 0 < frame_duration frame →
     let resolved := mapVibeTargets frame s in
     let r := addFrame frame s in
     (∀ i device, devices s !! i = Some device →
        slot_data r.2 i =
          slot_data s i ++
            match resolved !! device_name device with
            | Some tg =>
                [ {| pt_x := tTotal s; pt_y := target_value tg |};
                  {| pt_x := tTotal s + frame_duration frame
                               - Qmin (frame_duration frame * 0.2) 100;
                     pt_y := target_value tg |} ]
            | None => []
            end) ∧
     (∀ i, (length (devices s) ≤ i)%nat → slot_data r.2 i = slot_data s i) ∧
     (r.1 = true ↔
        ∃ device, device ∈ devices s ∧
                  is_Some (resolved !! device_name device)) ∧
     tTotal r.2 =
       (if r.1 then tTotal s + frame_duration frame else tTotal s)) ∧
  (let s := (updateDevices [dev "X"] init).2 in
   let r := addFrame frameX s in
   r.1 = true ∧
   slot_data s 0 = [] ∧
   slot_data r.2 0 = [ {| pt_x := 0; pt_y := 1 |};
                       {| pt_x := 900; pt_y := 1 |} ] ∧
   tTotal r.2 = 1000).
Proof.
  split; [|by vm_compute].
  intros frame s Hok Hdur resolved r.
  destruct (addFrame_effect_own frame s Hok Hdur) as (Hslot & Hch & Htot).
  fold resolved r in Hslot, Hch, Htot.
  split; [|split; [|split]]; [| |done|done].
  - intros i device Hi. rewrite Hslot, Hi. simpl. unfold appended.
    by destruct (resolved !! device_name device).
  - intros i Hi. rewrite Hslot, lookup_ge_None_2 by done. simpl.
    by rewrite app_nil_r.
Qed.

(** ** Monotonic sample times (C9) *)

Lemma nondecreasing_nil : nondecreasing [].
Proof. intros i j p q _ Hp. by rewrite lookup_nil in Hp. Qed.

Lemma nondecreasing_app (d1 d2 : list Point) :
  nondecreasing d1 → nondecreasing d2 →
  (∀ p q, p ∈ d1 → q ∈ d2 → pt_x p <= pt_x q) →
  nondecreasing (d1 ++ d2).
Proof.
  intros H1 H2 H12 i j p q Hij Hp Hq.
  apply lookup_app_Some in Hp as [Hp|[Hi Hp]];
    apply lookup_app_Some in Hq as [Hq|[Hj Hq]].
  - by apply (H1 i j).
  - apply H12; by eapply list_elem_of_lookup_2.
  - apply lookup_lt_Some in Hq. lia.
  - apply (H2 (i - length d1)%nat (j - length d1)%nat); [lia|done..].
Qed.

Lemma frame_points_bounds (total : Q) (frame : VibeFrame) (tg : VibeTarget) p :
  0 < frame_duration frame →
  p ∈ frame_points total frame tg →
  total <= pt_x p ∧ pt_x p <= total + frame_duration frame.
Proof.
  intros Hd Hp.
  pose proof (Q.le_min_l (frame_duration frame * 0.2) STEP_SMOOTHING) as Hl.
  assert (0 <= Qmin (frame_duration frame * 0.2) STEP_SMOOTHING) as H0.
  { apply Q.min_glb; [lra|]. unfold STEP_SMOOTHING. lra. }
  unfold frame_points in Hp.
  apply elem_of_cons in Hp as [->|Hp]; [simpl; lra|].
  apply list_elem_of_singleton in Hp as ->. simpl. lra.
Qed.

Lemma frame_points_nondecreasing (total : Q) (frame : VibeFrame)
    (tg : VibeTarget) :
  0 < frame_duration frame → nondecreasing (frame_points total frame tg).
Proof.
  intros Hd i j p q Hij Hp Hq.
  pose proof (Q.le_min_l (frame_duration frame * 0.2) STEP_SMOOTHING) as Hl.
  unfold frame_points in *.
  destruct i as [|[|i]], j as [|[|j]]; simplify_eq/=; try lia; lra.
Qed.

Lemma addFrame_state_ok (frame : VibeFrame) (s : State) :
  state_ok s → state_ok (addFrame frame s).2.
Proof.
  intros [Hcap Hnames Hnd Hst].
  pose proof (addFrame_fields frame s) as (Hd & Hds & Hlen & _).
  split; rewrite ?Hd, ?Hds, ?Hlen; done.
Qed.

Lemma addFrame_timeline_ok (frame : VibeFrame) (s : State) :
  state_ok s → timeline_ok s → timeline_ok (addFrame frame s).2.
Proof.
  intros Hok Htl.
  destruct (Qlt_le_dec 0 (frame_duration frame)) as [Hdur|Hdur];
    [|by rewrite addFrame_rejects].
  destruct (addFrame_effect frame s Hok Hdur) as (Hslot & Hch & Htot).
  cbv zeta in *. intros i. rewrite Hslot, Htot.
  destruct (Htl i) as [Hsorted Hbound].
  destruct (devices s !! i) as [d|] eqn:Hi; simpl; last first.
  { rewrite app_nil_r. split; [done|]. intros p Hp.
    specialize (Hbound p Hp). destruct (addFrame frame s).1; lra. }
  unfold appended.
  destruct (mapVibeTargets frame s !! device_name d) as [tg|] eqn:Htg.
  - assert ((addFrame frame s).1 = true) as ->.
    { apply Hch. exists d. split; [by eapply list_elem_of_lookup_2|].
      by rewrite Htg. }
    split.
    + apply nondecreasing_app; [done|by apply frame_points_nondecreasing|].
      intros p q Hp Hq. specialize (Hbound p Hp).
      apply frame_points_bounds in Hq; [lra|done].
    + intros p Hp. apply elem_of_app in Hp as [Hp|Hp].
      * specialize (Hbound p Hp). lra.
      * apply frame_points_bounds in Hp; [lra|done].
  - rewrite app_nil_r. split; [done|]. intros p Hp.
    specialize (Hbound p Hp). destruct (addFrame frame s).1; lra.
Qed.

Lemma addFrames_timeline_ok (frames : list VibeFrame) (s : State) :
  state_ok s → timeline_ok s → timeline_ok (run (OAddFrame <$> frames) s).
Proof.
  revert s. induction frames as [|f frames IH]; intros s Hok Htl; [done|].
  simpl. apply IH; [by apply addFrame_state_ok|by apply addFrame_timeline_ok].
Qed.

Lemma empty_timeline_ok (s : State) :
  (∀ i, slot_data s i = []) → timeline_ok s.
Proof.
  intros Hempty i. rewrite Hempty. split; [apply nondecreasing_nil|].
  intros p Hp. by apply not_elem_of_nil in Hp.
Qed.

Lemma addFrame_timeline_own (frame : VibeFrame) (s : State) :
  own_arrays s → timeline_ok s → timeline_ok (addFrame frame s).2.
Proof.
  intros Hok Htl.
  destruct (Qlt_le_dec 0 (frame_duration frame)) as [Hdur|Hdur];
    [|by rewrite addFrame_rejects].
  destruct (addFrame_effect_own frame s Hok Hdur) as (Hslot & Hch & Htot).
  cbv zeta in *. intros i. rewrite Hslot, Htot.
  destruct (Htl i) as [Hsorted Hbound].
  destruct (devices s !! i) as [d|] eqn:Hi; simpl; last first.
  { rewrite app_nil_r. split; [done|]. intros p Hp.
    specialize (Hbound p Hp). destruct (addFrame frame s).1; lra. }
  unfold appended.
  destruct (mapVibeTargets frame s !! device_name d) as [tg|] eqn:Htg.
  - assert ((addFrame frame s).1 = true) as ->.
    { apply Hch. exists d. split; [by eapply list_elem_of_lookup_2|].
      by rewrite Htg. }
    split.
    + apply nondecreasing_app; [done|by apply frame_points_nondecreasing|].
      intros p q Hp Hq. specialize (Hbound p Hp).
      apply frame_points_bounds in Hq; [lra|done].
    + intros p Hp. apply elem_of_app in Hp as [Hp|Hp].
      * specialize (Hbound p Hp). lra.
      * apply frame_points_bounds in Hp; [lra|done].
  - rewrite app_nil_r. split; [done|]. intros p Hp.
    specialize (Hbound p Hp). destruct (addFrame frame s).1; lra.
Qed.

Lemma addFrames_timeline_own (frames : list VibeFrame) (s : State) :
  own_arrays s → timeline_ok s → timeline_ok (run (OAddFrame <$> frames) s).
Proof.
  revert s. induction frames as [|f frames IH]; intros s Hok Htl; [done|].
  simpl. apply IH; [by apply addFrame_own|by apply addFrame_timeline_own].
Qed.

(** C9, as the code has it.  From a state whose arrays are all empty and
    in which every device has a dataset whose array exists and is held by
    no other dataset, after any sequence of [addFrame] calls the sample
    times of every dataset are non-decreasing. *)
Theorem addFrame_monotonic (frames : list VibeFrame) (s : State) :
  own_arrays s → (∀ i, slot_data s i = []) →
  ∀ i, nondecreasing (slot_data (run (OAddFrame <$> frames) s) i).
Proof.
  intros Hok Hempty i.
  by apply addFrames_timeline_own, empty_timeline_ok.
Qed.

(** ** Pruning (C4) *)

Section pruning.
Variable cutoff : Q.
Implicit Types (data : list Point) (st : list (list Point)).

Lemma first_past_le data : (first_past cutoff data ≤ length data)%nat.
Proof.
  induction data as [|p data IH]; simpl; [lia|].
  destruct (Qlt_bool (pt_x p) cutoff); lia.
Qed.

Lemma first_past_before data p :
  p ∈ take (first_past cutoff data) data → pt_x p < cutoff.
Proof.
  induction data as [|a data IH]; simpl.
  { intros H. by apply not_elem_of_nil in H. }
  destruct (Qlt_bool (pt_x a) cutoff) eqn:E; simpl.
  - intros [->|H]%elem_of_cons; [by apply Qlt_bool_true|by apply IH].
  - intros H. by apply not_elem_of_nil in H.
Qed.

Lemma first_past_stop data p :
  data !! first_past cutoff data = Some p → cutoff <= pt_x p.
Proof.
  induction data as [|a data IH]; simpl; [done|].
  destruct (Qlt_bool (pt_x a) cutoff) eqn:E; simpl; [done|].
  intros [= ->]. by apply Qlt_bool_false.
Qed.

Lemma first_past_all data :
  (∀ p, p ∈ data → pt_x p < cutoff) → first_past cutoff data = length data.
Proof.
  induction data as [|a data IH]; intros H; simpl; [done|].
  assert (Qlt_bool (pt_x a) cutoff = true) as ->
    by (apply Qlt_bool_true, H; left).
  f_equal. apply IH. intros p Hp. apply H. by right.
Qed.

(** The four ways out of the callback. *)
Lemma prune_data_cases data :
  let i := first_past cutoff data in
  (data = [] ∧ prune_data cutoff data = None) ∨
  (data ≠ [] ∧ i = length data ∧ prune_data cutoff data = Some []) ∨
  ((1 < i < length data)%nat ∧
     prune_data cutoff data = Some (drop (i - 1) data)) ∨
  ((i ≤ 1)%nat ∧ (i < length data)%nat ∧ prune_data cutoff data = None).
Proof.
  intros i. pose proof (first_past_le data) as Hle. fold i in Hle.
  unfold prune_data. fold i.
  destruct data as [|a data]; [by left|]. right.
  replace (length (a :: data) =? 0)%nat with false by done.
  destruct (Nat.eqb_spec i (length (a :: data))) as [Hi|Hi]; [by left|].
  right. destruct (Nat.ltb_spec 1 i); [left|right]; (split; [lia|]);
    [done|]. split; [lia|done].
Qed.

Lemma pruned_suffix data :
  ∃ k, pruned cutoff data = drop k data ∧
       (k ≤ first_past cutoff data)%nat.
Proof.
  unfold pruned.
  destruct (prune_data_cases data)
    as [(-> & ->)|[(_ & Hi & ->)|[(Hi & ->)|(_ & _ & ->)]]]; simpl.
  - by exists 0%nat.
  - exists (length data). rewrite drop_all. split; [done|lia].
  - eexists. split; [done|lia].
  - exists 0%nat. split; [done|lia].
Qed.

Lemma pruned_all_before data :
  (∀ p, p ∈ data → pt_x p < cutoff) → pruned cutoff data = [].
Proof.
  intros H. apply first_past_all in H. unfold pruned.
  destruct (prune_data_cases data)
    as [(-> & ->)|[(_ & _ & ->)|[(Hi & _)|(_ & Hi & _)]]]; try done; lia.
Qed.

Lemma pruned_tail data j p :
  nondecreasing data → (1 ≤ j)%nat →
  pruned cutoff data !! j = Some p → cutoff <= pt_x p.
Proof.
  intros Hsorted Hj. unfold pruned.
  assert (∀ k q, (first_past cutoff data ≤ k)%nat → data !! k = Some q →
                 cutoff <= pt_x q) as Hpast.
  { intros k q Hk Hq.
    destruct (lookup_lt_is_Some_2 data (first_past cutoff data))
      as [q0 Hq0]; [apply lookup_lt_Some in Hq; lia|].
    pose proof (first_past_stop data q0 Hq0).
    pose proof (Hsorted _ _ _ _ Hk Hq0 Hq). lra. }
  destruct (prune_data_cases data)
    as [(-> & ->)|[(_ & _ & ->)|[(Hi & ->)|(Hi & _ & ->)]]]; simpl;
    try done.
  - rewrite lookup_drop. apply Hpast. lia.
  - apply Hpast. lia.
Qed.

Lemma pruned_idem data : prune_data cutoff (pruned cutoff data) = None.
Proof.
  unfold pruned.
  destruct (prune_data_cases data)
    as [(-> & ->)|[(_ & _ & ->)|[(Hi & ->)|(_ & _ & Hn)]]]; simpl;
    try done; [|by rewrite Hn].
  set (i := first_past cutoff data) in *.
  destruct (lookup_lt_is_Some_2 data (i - 1)) as [a Ha]; [lia|].
  destruct (lookup_lt_is_Some_2 data i) as [q Hq]; [lia|].
  assert (pt_x a < cutoff) as Hbefore.
  { apply (first_past_before data). fold i.
    apply list_elem_of_lookup. exists (i - 1)%nat.
    rewrite lookup_take_lt by lia. done. }
  pose proof (first_past_stop data q Hq) as Hstop.
  assert (∃ rest, drop (i - 1) data = a :: q :: rest) as (rest & ->).
  { exists (drop (S i) data).
    rewrite (drop_S data a (i - 1)) by done.
    replace (S (i - 1)) with i by lia.
    by rewrite (drop_S data q i). }
  unfold prune_data. simpl.
  apply Qlt_bool_true in Hbefore as ->.
  by apply Qlt_bool_false in Hstop as ->.
Qed.

Lemma pruned_pruned data :
  pruned cutoff (pruned cutoff data) = pruned cutoff data.
Proof. unfold pruned at 1. by rewrite pruned_idem. Qed.

Lemma nonempty_valid st l : read st l ≠ [] → (l < length st)%nat.
Proof.
  unfold read. intros H. apply lookup_lt_is_Some.
  by destruct (st !! l).
Qed.

Lemma prune_body_read acc l l' :
  read (prune_body cutoff l acc).2 l' =
    if decide (l = l') then pruned cutoff (read acc.2 l) else read acc.2 l'.
Proof.
  unfold prune_body, pruned.
  destruct (prune_data cutoff (read acc.2 l)) as [d|] eqn:E; simpl.
  - case_decide as Hl.
    + subst l'. apply read_write_eq, nonempty_valid. intros Hnil.
      rewrite Hnil in E. done.
    + by apply read_write_ne.
  - case_decide; by subst.
Qed.

(** The loop of [prune] leaves in every array either what it held or its
    pruning, and the pruning in the arrays of the datasets it visited. *)
Lemma prune_loop_read (dsets : list loc)
    (acc acc0 : bool * list (list Point)) :
  (∀ l, read acc.2 l = read acc0.2 l ∨
        read acc.2 l = pruned cutoff (read acc0.2 l)) →
  let r := foldl (λ acc ds, prune_body cutoff ds acc) acc dsets in
  (∀ l, read r.2 l = read acc0.2 l ∨
        read r.2 l = pruned cutoff (read acc0.2 l)) ∧
  (∀ l, l ∈ dsets → read r.2 l = pruned cutoff (read acc0.2 l)) ∧
  (∀ l, read acc.2 l = pruned cutoff (read acc0.2 l) →
        read r.2 l = pruned cutoff (read acc0.2 l)).
Proof.
  revert acc. induction dsets as [|ds dsets IH]; intros acc Hacc; simpl.
  { split; [done|]. split; [|done].
    intros l Hl. by apply not_elem_of_nil in Hl. }
  assert (∀ l, read acc.2 l = pruned cutoff (read acc0.2 l) →
               read (prune_body cutoff ds acc).2 l
               = pruned cutoff (read acc0.2 l)) as Hkeep.
  { intros l Hl. rewrite prune_body_read. case_decide as Hds; [|done].
    subst l. by rewrite Hl, pruned_pruned. }
  assert (read (prune_body cutoff ds acc).2 ds
          = pruned cutoff (read acc0.2 ds)) as Hhere.
  { rewrite prune_body_read, decide_True by done.
    destruct (Hacc ds) as [->| ->]; [done|apply pruned_pruned]. }
  destruct (IH (prune_body cutoff ds acc)) as (H1 & H2 & H3).
  { intros l. rewrite prune_body_read. case_decide as Hds.
    - subst l. right. by rewrite prune_body_read, decide_True in Hhere.
    - apply Hacc. }
  split; [done|]. split.
  - intros l [->|Hl]%elem_of_cons; [by apply H3|by apply H2].
  - intros l Hl. by apply H3, Hkeep.
Qed.
End pruning.

Lemma prune_fields (s : State) :
  datasets (prune s).2 = datasets s ∧ devices (prune s).2 = devices s ∧
  tFrameBegin (prune s).2 = tFrameBegin s ∧
  tFrameEnd (prune s).2 = tFrameEnd s ∧ tNow (prune s).2 = tNow s ∧
  tTotal (prune s).2 = tTotal s ∧ redraws (prune s).2 = redraws s.
Proof. unfold prune. by destruct (foldl _ _ _). Qed.

Lemma prune_slot (s : State) (i : nat) :
  slot_data (prune s).2 i = pruned (tNow s - VISIBLE_PAST) (slot_data s i).
Proof.
  unfold slot_data. destruct (prune_fields s) as (-> & _).
  destruct (datasets s !! i) as [l|] eqn:Hi; [|done].
  destruct (prune_loop_read (tNow s - VISIBLE_PAST) (datasets s)
              (false, store s) (false, store s)) as (_ & H & _);
    [by left|].
  specialize (H l (list_elem_of_lookup_2 _ _ _ Hi)). simpl in H.
  rewrite <- H. unfold prune. by destruct (foldl _ _ _).
Qed.

(** C4, as the code has it.  For every dataset and every [tNow], with the
    cutoff [tNow - VISIBLE_PAST]: [prune] leaves a suffix of the array, and every
    sample it removes is before the cutoff; if all samples are before the
    cutoff the array is emptied; and when the array is ordered by time,
    every sample left after the first one is at or after the cutoff, so at
    most one sample left, the first, is before it. *)
Theorem prune_window (s : State) (i : nat) :
  let cutoff := tNow s - VISIBLE_PAST in
  let data := slot_data s i in
  let data' := slot_data (prune s).2 i in
  (∃ k, data' = drop k data ∧ ∀ p, p ∈ take k data → pt_x p < cutoff) ∧
  ((∀ p, p ∈ data → pt_x p < cutoff) → data' = []) ∧
  (nondecreasing data →
   (∀ j p, (1 ≤ j)%nat → data' !! j = Some p → cutoff <= pt_x p) ∧
   (∀ j1 j2 p1 p2, data' !! j1 = Some p1 → data' !! j2 = Some p2 →
                   pt_x p1 < cutoff → pt_x p2 < cutoff → j1 = j2)).
Proof.
  intros cutoff data data'. subst data'. rewrite prune_slot.
  fold cutoff data. split; [|split].
  - destruct (pruned_suffix cutoff data) as (k & Hk & Hle).
    exists k. split; [done|]. intros p Hp.
    apply (first_past_before cutoff data).
    apply list_elem_of_lookup in Hp as (n & Hn).
    apply list_elem_of_lookup. exists n.
    apply lookup_take_Some in Hn as [Hn Hlt].
    rewrite lookup_take_lt by lia. done.
  - apply pruned_all_before.
  - intros Hs.
    assert (∀ j p, (1 ≤ j)%nat → pruned cutoff data !! j = Some p →
                   cutoff <= pt_x p) as Htail
      by (intros j p; by apply pruned_tail).
    split; [done|]. intros j1 j2 p1 p2 H1 H2 Hb1 Hb2.
    destruct j1 as [|j1], j2 as [|j2]; [done|exfalso..].
    + specialize (Htail (S j2) p2 ltac:(lia) H2). lra.
    + specialize (Htail (S j1) p1 ltac:(lia) H1). lra.
    + specialize (Htail (S j1) p1 ltac:(lia) H1). lra.
Qed.

(** ** The clock invariant (C1) *)

Section clock.
Variable full : bool.

Lemma advance_clock (amount : Q) (s : State) :
  (full = true → tFrameEnd s + amount <= tTotal s) →
  clock_inv full s → clock_inv full (advance amount s).2.
Proof.
  intros Hg (H1 & H2 & H3).
  destruct (Qlt_le_dec 0 amount) as [Ha|Ha].
  - rewrite advance_accepts by done. unfold clock_inv. simpl.
    split; [lra|]. split; [lra|done].
  - by rewrite advance_rejects.
Qed.

Lemma addFrame_clock (frame : VibeFrame) (s : State) :
  clock_inv full s → clock_inv full (addFrame frame s).2.
Proof.
  intros (H1 & H2 & H3).
  destruct (addFrame_fields frame s) as (_ & _ & _ & Hb & He & Hn & Ht).
  unfold clock_inv. rewrite Hb, He, Hn. split; [done|]. split; [done|].
  intros Hf. specialize (H3 Hf). lra.
Qed.

Lemma resetGroup_clock (s : State) : clock_inv full (resetGroup s).2.
Proof.
  unfold resetGroup. destruct (isEmpty _); unfold clock_inv; simpl;
    (split; [lra|]; split; [lra|]; intros _; lra).
Qed.

Lemma setGroup_clock (group : VibeGroup) (s : State) :
  clock_inv full (setGroup group s).2.
Proof.
  unfold setGroup. pose proof (resetGroup_clock s) as H.
  destruct (resetGroup s) as [c s1]. simpl in H.
  set (c1 := c || _).
  assert (clock_inv full (set_username (group_username group) s1)) as H1
    by done.
  revert H1. generalize (set_username (group_username group) s1) c1.
  clear. induction (group_frames group) as [|f fs IH]; intros s c H;
    [done|].
  simpl. pose proof (addFrame_clock f s H) as Hf.
  destruct (addFrame f s) as [c' s']. by apply IH.
Qed.

Lemma updateDevices_clock (ds : list VibeDevice) (s : State) :
  clock_inv full s → clock_inv full (updateDevices ds s).2.
Proof.
  unfold updateDevices. destruct (same_devices _ _); [done|].
  destruct (forEach _ _ _ _) as [m st].
  by destruct (forEach _ _ _ _) as [dsets st'].
Qed.

Lemma prune_clock (s : State) :
  clock_inv full s → clock_inv full (prune s).2.
Proof.
  destruct (prune_fields s) as (_ & _ & Hb & He & Hn & Ht & _).
  unfold clock_inv. by rewrite Hb, He, Hn, Ht.
Qed.

Lemma update_clock (adv : bool) (t : Q) (s : State) :
  clock_inv full s → clock_inv full (update adv t s).2.
Proof.
  intros (H1 & H2 & H3). unfold update.
  destruct (Qle_bool (t - tUpdatedAt s) 0) eqn:Hdt; [done|].
  apply Qle_bool_false in Hdt. simpl.
  set (s1 := if adv && Qlt_bool _ _ then _ else _).
  assert (clock_inv full s1.2) as Hs1.
  { subst s1. destruct (adv && Qlt_bool _ _) eqn:E; [|done].
    apply andb_true_iff in E as [_ E]. apply Qlt_bool_true in E.
    simpl in E. unfold clock_inv. simpl.
    pose proof (Q.le_min_r (tNow s + (t - tUpdatedAt s)) (tFrameEnd s)).
    assert (tNow s <= Qmin (tNow s + (t - tUpdatedAt s)) (tFrameEnd s))
      by (apply Q.min_glb; lra).
    split; [lra|]. split; [lra|done]. }
  destruct s1 as [c s1]. simpl in Hs1. apply prune_clock in Hs1.
  destruct (prune s1) as [c' s2]. simpl in *.
  by destruct (c' || c).
Qed.

Lemma updateLoop_clock (t : Q) (h : positive) (s : State) :
  clock_inv full s → clock_inv full (updateLoop t h s).
Proof.
  intros H. unfold updateLoop. destruct (isEmpty s).
  - apply resetGroup_clock.
  - by apply (update_clock true t s) in H.
Qed.

Lemma startUpdateLoop_clock (t : Q) (h : positive) (s : State) :
  clock_inv full s → clock_inv full (startUpdateLoop t h s).
Proof.
  intros H. unfold startUpdateLoop. destruct (negb _); [done|].
  by apply updateLoop_clock.
Qed.

Lemma dispatch_clock (msg : Message) (t : Q) (h : positive) (s : State) :
  (full = true → advance_within (OMessage msg t t h) s) →
  clock_inv full s → clock_inv full (dispatch msg t h s).2.
Proof.
  intros Hg H. destruct msg; simpl; try done.
  - by apply updateDevices_clock.
  - apply resetGroup_clock.
  - pose proof (setGroup_clock group s) as Hs.
    destruct (setGroup group s). by apply startUpdateLoop_clock.
  - pose proof (addFrame_clock frame s H) as Hs.
    destruct (addFrame frame s). by apply startUpdateLoop_clock.
  - by apply advance_clock.
Qed.

Lemma step_clock (o : Op) (s : State) :
  (full = true → advance_within o s) →
  clock_inv full s → clock_inv full (step o s).
Proof.
  intros Hg H. destruct o; simpl.
  - by apply advance_clock.
  - by apply update_clock.
  - by apply addFrame_clock.
  - apply setGroup_clock.
  - apply resetGroup_clock.
  - by apply updateDevices_clock.
  - by apply prune_clock.
  - by apply updateLoop_clock.
  - unfold onmessage.
    pose proof (dispatch_clock msg t1 h s Hg H) as Hd.
    destruct (dispatch msg t1 h s) as [[|] s1]; [|done].
    by apply update_clock.
Qed.
End clock.

Lemma run_clock (full : bool) (ops : list Op) (s : State) :
  (full = true → advances_within ops s) →
  clock_inv full s → clock_inv full (run ops s).
Proof.
  revert s. induction ops as [|o ops IH]; intros s Hg H; [done|].
  simpl. apply IH.
  - intros Hf. by apply Hg.
  - apply step_clock; [|done]. intros Hf. by apply Hg.
Qed.

Lemma init_clock (full : bool) : clock_inv full init.
Proof. unfold clock_inv. simpl. split; [lra|]. split; [lra|]. intros _. lra. Qed.

(** C1, as the code has it.  In every state reached from the initial one by
    any sequence of operations, [tFrameBegin ≤ tNow ≤ tFrameEnd].  The bound
    [tFrameEnd ≤ tTotal] holds as well as long as no [advance] of the
    sequence moves [tFrameEnd] past [tTotal]. *)
Theorem clock_invariant (ops : list Op) :
  let s := run ops init in
  (tFrameBegin s <= tNow s ∧ tNow s <= tFrameEnd s) ∧
  (advances_within ops init → tFrameEnd s <= tTotal s).
Proof.
  intros s. split.
  - destruct (run_clock false ops init) as (H1 & H2 & _);
      [done|apply init_clock|done].
  - intros Hg. destruct (run_clock true ops init) as (_ & _ & H3);
      [done|apply init_clock|by apply H3].
Qed.

(** C1 as stated fails: one [advance] on the initial state leaves
    [tFrameEnd] after [tTotal]. *)
Lemma clock_total_counterexample :
  let s := run [OAdvance 1000] init in
  ¬ (tFrameBegin s <= tNow s ∧ tNow s <= tFrameEnd s ∧
     tFrameEnd s <= tTotal s).
Proof. vm_compute. intros (_ & _ & H). by apply H. Qed.

(** ** Device registry (C6) *)

Lemma device_eq (d u : VibeDevice) : device_name d = device_name u → d = u.
Proof. destruct d, u. simpl. by intros ->. Qed.

Lemma same_devices_loop (updated current : list VibeDevice) (i : nat)
    (b : bool) :
  forEach (λ i d acc,
             acc && match updated !! i with
                    | Some u => bool_decide (device_name d = device_name u)
                    | None => false
                    end) i current b = true ↔
  b = true ∧ ∀ k d, current !! k = Some d → updated !! (i + k)%nat = Some d.
Proof.
  revert i b. induction current as [|c current IH]; intros i b; simpl.
  { split; [by intros ->|by intros [-> _]]. }
  rewrite IH, andb_true_iff. split.
  - intros [[-> Hc] Hrest]. split; [done|]. intros [|k] d Hk.
    + simpl in Hk. injection Hk as <-. rewrite Nat.add_0_r.
      destruct (updated !! i) as [u|]; [|done].
      apply bool_decide_eq_true in Hc. by rewrite (device_eq c u).
    + replace (i + S k)%nat with (S i + k)%nat by lia. by apply Hrest.
  - intros [-> H]. split.
    + split; [done|]. specialize (H 0%nat c eq_refl).
      rewrite Nat.add_0_r in H. rewrite H. by apply bool_decide_eq_true.
    + intros k d Hk. replace (S i + k)%nat with (i + S k)%nat by lia.
      by apply H.
Qed.

Lemma same_devices_spec (current updated : list VibeDevice) :
  same_devices current updated = true ↔ updated = current.
Proof.
  unfold same_devices. rewrite andb_true_iff, same_devices_loop.
  rewrite Nat.eqb_eq. split.
  - intros (Hlen & _ & H). apply list_eq_same_length with (length current);
      [done..|].
    intros k u d Hk Hu Hd. specialize (H k d Hd). simpl in H. congruence.
  - intros ->. split; [done|]. split; [done|]. by intros k d Hk.
Qed.

Section device_remap.
(** The datasets at the call of [updateDevices]. *)
Variable dsets : list loc.

(** The first loop: the device at index [i + k] gets a copy of its array
    at the location [length st + k]; the arrays of [st] stay. *)
Lemma capture_loop (devs : list VibeDevice) (i : nat)
    (m : gmap string loc) (st : list (list Point)) :
  (∀ l, l ∈ dsets → (l < length st)%nat) →
  (i + length devs ≤ length dsets)%nat →
  NoDup (device_name <$> devs) →
  let r := forEach (capture_body dsets) i devs (m, st) in
  length r.2 = (length st + length devs)%nat ∧
  (∀ l, (l < length st)%nat → read r.2 l = read st l) ∧
  (∀ k d l, devs !! k = Some d → dsets !! (i + k)%nat = Some l →
     r.1 !! device_name d = Some (length st + k)%nat ∧
     read r.2 (length st + k)%nat = read st l) ∧
  (∀ n, n ∉ device_name <$> devs → r.1 !! n = m !! n).
Proof.
  revert i m st.
  induction devs as [|d devs IH]; intros i m st Hvalid Hlen Hnd.
  { simpl. split; [lia|]. split; [done|]. split; [|done].
    intros k d l Hk. by rewrite lookup_nil in Hk. }
  simpl in Hlen. rewrite fmap_cons in Hnd.
  apply NoDup_cons in Hnd as [Hd Hnd].
  destruct (lookup_lt_is_Some_2 dsets i) as [l0 Hl0]; [lia|].
  simpl forEach. unfold capture_body at 2. rewrite Hl0. simpl.
  set (st' := st ++ [read st l0]).
  assert (length st' = S (length st)) as Hst'
    by (unfold st'; rewrite length_app; simpl; lia).
  destruct (IH (S i) (<[device_name d := length st]> m) st')
    as (Ha & Hp & Hb & Hc); [|lia|done|].
  { intros l Hl. specialize (Hvalid l Hl). lia. }
  split; [simpl; lia|]. split; [|split].
  - intros l Hl. rewrite Hp by lia. by apply read_app_l.
  - intros [|k] d' l Hk Hl.
    + simpl in Hk. injection Hk as <-. rewrite Nat.add_0_r in *.
      assert (l = l0) as -> by congruence.
      rewrite Hc by done. rewrite lookup_insert_eq. split; [done|].
      rewrite Hp by lia. unfold st', read. by rewrite list_lookup_middle.
    + simpl in Hk.
      replace (i + S k)%nat with (S i + k)%nat in Hl by lia.
      destruct (Hb k d' l Hk Hl) as [Hm Hr].
      replace (length st + S k)%nat with (length st' + k)%nat by lia.
      split; [done|]. rewrite Hr. apply read_app_l, Hvalid.
      by eapply list_elem_of_lookup_2.
  - intros n Hn. apply not_elem_of_cons in Hn as [Hn1 Hn2].
    rewrite Hc by done. by rewrite lookup_insert_ne.
Qed.

(** The second loop: dataset [i + k] receives the array kept for the name
    of the device [k], or a new empty array, allocated after those of the
    devices before it; the other datasets and the arrays of [st] stay. *)
Lemma rebuild_loop (m : gmap string loc) (devs : list VibeDevice)
    (i : nat) (cur : list loc) (st : list (list Point)) :
  (i + length devs ≤ length cur)%nat →
  let r := forEach (rebuild_body m) i devs (cur, st) in
  length r.1 = length cur ∧
  (length st ≤ length r.2)%nat ∧
  (∀ l, (l < length st)%nat → read r.2 l = read st l) ∧
  (∀ j, (j < i ∨ i + length devs ≤ j)%nat → r.1 !! j = cur !! j) ∧
  (∀ k d, devs !! k = Some d →
     ∃ l, r.1 !! (i + k)%nat = Some l ∧
          match m !! device_name d with
          | Some data => l = data
          | None =>
              (length st ≤ l < length r.2)%nat ∧ read r.2 l = [] ∧
              ∀ k' d' l', (k < k')%nat → devs !! k' = Some d' →
                          m !! device_name d' = None →
                          r.1 !! (i + k')%nat = Some l' → (l < l')%nat
          end).
Proof.
  revert i cur st. induction devs as [|d devs IH]; intros i cur st Hlen.
  { simpl. split; [done|]. split; [done|]. split; [done|]. split; [done|].
    intros k d Hk. by rewrite lookup_nil in Hk. }
  simpl in Hlen.
  destruct (lookup_lt_is_Some_2 cur i) as [l0 Hl0]; [lia|].
  simpl forEach. unfold rebuild_body at 2. simpl. rewrite Hl0.
  destruct (m !! device_name d) as [data|] eqn:Hm; simpl.
  - destruct (IH (S i) (<[i := data]> cur) st)
      as (Ha & Hb & Hp & Hj & Hk); [rewrite length_insert; lia|].
    rewrite length_insert in Ha.
    split; [done|]. split; [done|]. split; [done|]. split.
    + intros j Hjj. rewrite Hj by lia.
      apply list_lookup_insert_ne. lia.
    + intros [|k] d' Hd'.
      * simpl in Hd'. injection Hd' as <-. rewrite Nat.add_0_r.
        exists data. rewrite Hj by lia.
        rewrite list_lookup_insert_eq by lia. by rewrite Hm.
      * simpl in Hd'. replace (i + S k)%nat with (S i + k)%nat by lia.
        destruct (Hk k d' Hd') as (l & Hl & Hcase). exists l.
        split; [done|]. destruct (m !! device_name d'); [done|].
        destruct Hcase as (Hr & He & Hmono). split; [done|].
        split; [done|]. intros [|k'] d'' l' Hkk Hd'' Hm''; [lia|].
        replace (i + S k')%nat with (S i + k')%nat by lia.
        apply (Hmono k' d''); [lia|done..].
  - set (st' := st ++ [[]]).
    assert (length st' = S (length st)) as Hst'
      by (unfold st'; rewrite length_app; simpl; lia).
    destruct (IH (S i) (<[i := length st]> cur) st')
      as (Ha & Hb & Hp & Hj & Hk); [rewrite length_insert; lia|].
    rewrite length_insert in Ha.
    split; [done|]. split; [lia|]. split; [|split].
    + intros l Hl. rewrite Hp by lia. by apply read_app_l.
    + intros j Hjj. rewrite Hj by lia.
      apply list_lookup_insert_ne. lia.
    + intros [|k] d' Hd'.
      * simpl in Hd'. injection Hd' as <-. rewrite Nat.add_0_r.
        exists (length st). rewrite Hj by lia.
        rewrite list_lookup_insert_eq by lia. rewrite Hm.
        split; [done|]. split; [lia|]. split.
        { rewrite Hp by lia. unfold st', read.
          by rewrite list_lookup_middle. }
        intros [|k'] d'' l' Hkk Hd'' Hm'' Hl'; [lia|].
        simpl in Hd''.
        replace (i + S k')%nat with (S i + k')%nat in Hl' by lia.
        destruct (Hk k' d'' Hd'') as (l & Hl & Hcase).
        rewrite Hm'' in Hcase. assert (l' = l) as -> by congruence.
        lia.
      * simpl in Hd'. replace (i + S k)%nat with (S i + k)%nat by lia.
        destruct (Hk k d' Hd') as (l & Hl & Hcase). exists l.
        split; [done|]. destruct (m !! device_name d'); [done|].
        destruct Hcase as (Hr & He & Hmono). split; [lia|].
        split; [done|]. intros [|k'] d'' l' Hkk Hd'' Hm''; [lia|].
        replace (i + S k')%nat with (S i + k')%nat by lia.
        apply (Hmono k' d''); [lia|done..].
Qed.

(** The last loop empties the arrays of the datasets it visits and no
    other array. *)
Lemma clear_from_read (from : nat) (cur : list loc)
    (st : list (list Point)) (l : loc) :
  read (clear_from from cur st) l =
    if bool_decide (l ∈ drop from cur) then [] else read st l.
Proof.
  unfold clear_from. generalize (drop from cur) as ls. intros ls.
  revert st. induction ls as [|a ls IH]; intros st; cbn [foldl].
  { by rewrite bool_decide_eq_false_2 by apply not_elem_of_nil. }
  rewrite IH. destruct (decide (l = a)) as [->|Hne].
  - rewrite read_clear_eq.
    rewrite (bool_decide_eq_true_2 (a ∈ a :: ls)) by left.
    by destruct (bool_decide _).
  - rewrite read_clear_ne by done.
    assert (bool_decide (l ∈ a :: ls) = bool_decide (l ∈ ls)) as ->; [|done].
    apply bool_decide_ext. rewrite elem_of_cons.
    split; [by intros [?|?]|by right].
Qed.
End device_remap.

Lemma updateDevices_same (updated : list VibeDevice) (s : State) :
  updated = devices s → updateDevices updated s = (false, s).
Proof.
  intros H. unfold updateDevices.
  by apply (same_devices_spec (devices s)) in H as ->.
Qed.

Lemma updateDevices_unfold (updated : list VibeDevice) (s : State) :
  updated ≠ devices s →
  updateDevices updated s =
    let cap := forEach (capture_body (datasets s)) 0 (devices s)
                 (∅, store s) in
    let devs := take (length (datasets s)) updated in
    let reb := forEach (rebuild_body cap.1) 0 devs (datasets s, cap.2) in
    (true, set_store (clear_from (length devs) reb.1 reb.2)
             (set_datasets reb.1 (set_devices devs s))).
Proof.
  intros H. unfold updateDevices.
  destruct (same_devices (devices s) updated) eqn:E.
  { by apply same_devices_spec in E. }
  destruct (forEach _ _ _ _) as [m st]. simpl.
  by destruct (forEach _ _ _ _) as [cur st'].
Qed.



(** ** Well-formedness is kept *)

Lemma init_ok : state_ok init.
Proof.
  split.
  - simpl. lia.
  - apply NoDup_nil_2.
  - exact (NoDup_seq 0 (length LINE_COLORS)).
  - intros l Hl. change (l ∈ seq 0 (length LINE_COLORS)) in Hl.
    apply elem_of_seq in Hl. simpl in *. lia.
Qed.

Lemma clear_from_length (from : nat) (cur : list loc)
    (st : list (list Point)) :
  length (clear_from from cur st) = length st.
Proof.
  unfold clear_from. generalize (drop from cur) as ls. intros ls.
  revert st. induction ls as [|a ls IH]; intros st; simpl; [done|].
  by rewrite IH, length_clear.
Qed.

Lemma prune_loop_length (cutoff : Q) (dsets : list loc)
    (acc : bool * list (list Point)) :
  length (foldl (λ acc ds, prune_body cutoff ds acc) acc dsets).2
  = length acc.2.
Proof.
  revert acc. induction dsets as [|ds dsets IH]; intros acc; simpl; [done|].
  rewrite IH. unfold prune_body. destruct (prune_data _ _); [|done].
  simpl. apply length_insert.
Qed.

(** A state that differs from a well-formed one neither in the devices nor
    in the datasets, and whose store is as long, is well-formed. *)
Lemma state_ok_same (s s' : State) :
  devices s' = devices s → datasets s' = datasets s →
  length (store s') = length (store s) →
  state_ok s → state_ok s'.
Proof.
  intros Hd Hds Hlen [Hcap Hnames Hnd Hst].
  split; rewrite ?Hd, ?Hds, ?Hlen; done.
Qed.

Lemma advance_ok (amount : Q) (s : State) :
  state_ok s → state_ok (advance amount s).2.
Proof.
  apply state_ok_same; unfold advance; by destruct (Qle_bool amount 0).
Qed.

Lemma resetGroup_ok (s : State) : state_ok s → state_ok (resetGroup s).2.
Proof.
  apply state_ok_same; unfold resetGroup; destruct (isEmpty _); simpl;
    try done.
  apply clear_from_length.
Qed.

Lemma setGroup_ok (group : VibeGroup) (s : State) :
  state_ok s → state_ok (setGroup group s).2.
Proof.
  intros H. unfold setGroup. apply resetGroup_ok in H.
  destruct (resetGroup s) as [c s1]. simpl in H.
  set (c1 := c || _).
  assert (state_ok (set_username (group_username group) s1)) as H1
    by by apply (state_ok_same s1).
  revert H1. generalize (set_username (group_username group) s1) c1.
  clear. induction (group_frames group) as [|f fs IH]; intros s c H; [done|].
  simpl. pose proof (addFrame_state_ok f s H) as Hf.
  destruct (addFrame f s) as [c' s']. by apply IH.
Qed.

Lemma prune_ok (s : State) : state_ok s → state_ok (prune s).2.
Proof.
  apply state_ok_same; try apply prune_fields.
  pose proof (prune_loop_length (tNow s - VISIBLE_PAST) (datasets s)
                (false, store s)) as H.
  unfold prune. by destruct (foldl _ _ _).
Qed.

Lemma update_ok (adv : bool) (t : Q) (s : State) :
  state_ok s → state_ok (update adv t s).2.
Proof.
  intros H. unfold update.
  destruct (Qle_bool (t - tUpdatedAt s) 0); [by apply (state_ok_same s)|].
  simpl. set (s1 := if adv && Qlt_bool _ _ then _ else _).
  assert (state_ok s1.2) as Hs1.
  { subst s1. destruct (adv && Qlt_bool _ _); by apply (state_ok_same s). }
  destruct s1 as [c s1]. simpl in Hs1. apply prune_ok in Hs1.
  destruct (prune s1) as [c' s2]. simpl in *.
  destruct (c' || c); [|done]. by apply (state_ok_same s2).
Qed.

Lemma updateLoop_ok (t : Q) (h : positive) (s : State) :
  state_ok s → state_ok (updateLoop t h s).
Proof.
  intros H. unfold updateLoop. destruct (isEmpty s).
  - apply resetGroup_ok. by apply (state_ok_same s).
  - apply (update_ok true t) in H. by apply (state_ok_same (update true t s).2).
Qed.

Lemma startUpdateLoop_ok (t : Q) (h : positive) (s : State) :
  state_ok s → state_ok (startUpdateLoop t h s).
Proof.
  intros H. unfold startUpdateLoop. destruct (negb _); [done|].
  by apply updateLoop_ok.
Qed.

Lemma updateDevices_ok (updated : list VibeDevice) (s : State) :
  NoDup (device_name <$> updated) →
  state_ok s → state_ok (updateDevices updated s).2.
Proof.
  intros Hnew Hok. destruct (decide (updated = devices s)) as [Heq|Hne].
  { by rewrite updateDevices_same. }
  pose proof Hok as [Hcap Hnames Hnd Hst].
  rewrite updateDevices_unfold by done. cbv zeta.
  set (cap := forEach _ 0%nat (devices s) (∅, store s)).
  set (devs := take (length (datasets s)) updated).
  set (reb := forEach _ 0%nat devs (datasets s, cap.2)).
  destruct (capture_loop (datasets s) (devices s) 0 ∅ (store s))
    as (Hcl & Hcp & Hcb & Hcc); [done|simpl; lia|done|].
  fold cap in Hcl, Hcp, Hcb, Hcc.
  assert (length devs ≤ length (datasets s))%nat as Hdevs
    by (unfold devs; rewrite length_take; lia).
  assert (NoDup (device_name <$> devs)) as Hdevs_nd.
  { unfold devs. rewrite fmap_take.
    eapply sublist_NoDup; [exact Hnew|apply sublist_take]. }
  destruct (rebuild_loop cap.1 devs 0 (datasets s) cap.2)
    as (Hrl & Hrs & Hrp & Hrj & Hrk); [simpl; lia|].
  fold reb in Hrl, Hrs, Hrp, Hrj, Hrk. simpl in Hrl, Hrs.
  (* the copies kept by name *)
  assert (∀ nm c, cap.1 !! nm = Some c →
            ∃ k d, devices s !! k = Some d ∧ device_name d = nm ∧
                   c = (length (store s) + k)%nat) as Hkept.
  { intros nm c Hc.
    destruct (decide (nm ∈ device_name <$> devices s)) as [Hin|Hout].
    - apply list_elem_of_fmap in Hin as (d & -> & Hd).
      apply list_elem_of_lookup in Hd as (k & Hk).
      destruct (lookup_lt_is_Some_2 (datasets s) k) as [lk Hlk].
      { apply lookup_lt_Some in Hk. lia. }
      destruct (Hcb k d lk Hk Hlk) as [Hm _].
      exists k, d. split; [done|]. split; [done|]. congruence.
    - rewrite Hcc, lookup_empty in Hc by done. done. }
  (* where the datasets point after the second loop *)
  assert (∀ i l, reb.1 !! i = Some l → (length devs ≤ i)%nat →
                 datasets s !! i = Some l ∧ (l < length (store s))%nat)
    as Hold.
  { intros i l Hi Hge. rewrite Hrj in Hi by (simpl; lia). split; [done|].
    apply Hst. by eapply list_elem_of_lookup_2. }
  assert (∀ i l, reb.1 !! i = Some l → (i < length devs)%nat →
            ∃ d, devs !! i = Some d ∧
                 match cap.1 !! device_name d with
                 | Some c => l = c ∧ (length (store s) ≤ l < length cap.2)%nat
                 | None => (length cap.2 ≤ l < length reb.2)%nat
                 end) as Hnew_slot.
  { intros i l Hi Hlt.
    destruct (lookup_lt_is_Some_2 devs i Hlt) as [d Hd].
    destruct (Hrk i d Hd) as (l' & Hl' & Hcase). simpl in Hl'.
    assert (l' = l) as -> by congruence. exists d. split; [done|].
    destruct (cap.1 !! device_name d) as [c|] eqn:Hc.
    - split; [done|]. subst l.
      destruct (Hkept _ _ Hc) as (k & d' & Hk & _ & ->).
      apply lookup_lt_Some in Hk. lia.
    - apply Hcase. }
  split; simpl.
  - lia.
  - done.
  - apply NoDup_alt. intros i j l Hi Hj.
    destruct (decide (i < length devs)%nat) as [Hil|Hil];
      destruct (decide (j < length devs)%nat) as [Hjl|Hjl].
    + destruct (Hnew_slot i l Hi Hil) as (di & Hdi & Hci).
      destruct (Hnew_slot j l Hj Hjl) as (dj & Hdj & Hcj).
      destruct (cap.1 !! device_name di) as [ci|] eqn:Hmi;
        destruct (cap.1 !! device_name dj) as [cj|] eqn:Hmj;
        try lia.
      * destruct Hci as [-> _], Hcj as [<- _].
        destruct (Hkept _ _ Hmi) as (ki & ei & Hki & Hni & Hli).
        destruct (Hkept _ _ Hmj) as (kj & ej & Hkj & Hnj & Hlj).
        assert (ki = kj) as -> by lia.
        assert (device_name di = device_name dj) as Hn by congruence.
        eapply (NoDup_lookup (device_name <$> devs)); [done| |].
        -- by rewrite list_lookup_fmap, Hdi.
        -- rewrite list_lookup_fmap, Hdj. simpl. by rewrite Hn.
      * destruct (decide (i = j)) as [|Hij]; [done|]. exfalso.
        destruct (Hrk i di Hdi) as (li & Hli & Hcase_i).
        destruct (Hrk j dj Hdj) as (lj & Hlj & Hcase_j).
        simpl in Hli, Hlj. rewrite Hmi in Hcase_i. rewrite Hmj in Hcase_j.
        destruct Hcase_i as (_ & _ & Hmono_i).
        destruct Hcase_j as (_ & _ & Hmono_j).
        assert (li = l) as -> by congruence.
        assert (lj = l) as -> by congruence.
        destruct (decide (i < j)%nat).
        -- specialize (Hmono_i j dj l). simpl in Hmono_i.
           specialize (Hmono_i ltac:(lia) Hdj Hmj Hj). lia.
        -- specialize (Hmono_j i di l). simpl in Hmono_j.
           specialize (Hmono_j ltac:(lia) Hdi Hmi Hi). lia.
    + destruct (Hnew_slot i l Hi Hil) as (di & Hdi & Hci).
      destruct (Hold j l Hj) as [_ Hlt]; [lia|].
      destruct (cap.1 !! device_name di); lia.
    + destruct (Hnew_slot j l Hj Hjl) as (dj & Hdj & Hcj).
      destruct (Hold i l Hi) as [_ Hlt]; [lia|].
      destruct (cap.1 !! device_name dj); lia.
    + destruct (Hold i l Hi) as [Hi' _]; [lia|].
      destruct (Hold j l Hj) as [Hj' _]; [lia|].
      exact (NoDup_lookup (datasets s) i j l Hnd Hi' Hj').
  - intros l Hl. rewrite clear_from_length.
    apply list_elem_of_lookup in Hl as (i & Hi).
    destruct (decide (i < length devs)%nat) as [Hil|Hil].
    + destruct (Hnew_slot i l Hi Hil) as (di & Hdi & Hci).
      destruct (cap.1 !! device_name di); lia.
    + destruct (Hold i l Hi) as [_ Hlt]; lia.
Qed.

Lemma dispatch_ok (msg : Message) (t : Q) (h : positive) (s : State) :
  names_distinct (OMessage msg t t h) →
  state_ok s → state_ok (dispatch msg t h s).2.
Proof.
  intros Hn H. destruct msg; simpl; try done.
  - by apply (state_ok_same s).
  - by apply updateDevices_ok.
  - by apply resetGroup_ok.
  - pose proof (setGroup_ok group s H) as Hs.
    destruct (setGroup group s). by apply startUpdateLoop_ok.
  - pose proof (addFrame_state_ok frame s H) as Hs.
    destruct (addFrame frame s). by apply startUpdateLoop_ok.
  - by apply advance_ok.
Qed.

Lemma step_ok (o : Op) (s : State) :
  names_distinct o → state_ok s → state_ok (step o s).
Proof.
  intros Hn H. destruct o; simpl.
  - by apply advance_ok.
  - by apply update_ok.
  - by apply addFrame_state_ok.
  - by apply setGroup_ok.
  - by apply resetGroup_ok.
  - by apply updateDevices_ok.
  - by apply prune_ok.
  - by apply updateLoop_ok.
  - unfold onmessage.
    pose proof (dispatch_ok msg t1 h s Hn H) as Hd.
    destruct (dispatch msg t1 h s) as [[|] s1]; [|done].
    by apply update_ok.
Qed.

(** Every state reached from the initial one is well-formed. *)
Lemma run_ok (ops : list Op) (s : State) :
  Forall names_distinct ops → state_ok s → state_ok (run ops s).
Proof.
  intros Hn. revert s. induction Hn as [|o ops Ho Hn IH]; intros s H; [done|].
  simpl. by apply IH, step_ok.
Qed.

(** ** Concrete states *)

Lemma stateX_ok : state_ok stateX.
Proof.
  apply updateDevices_ok; [|apply init_ok].
  simpl. apply NoDup_singleton.
Qed.

Lemma stateX_empty (i : nat) : slot_data stateX i = [].
Proof. by destruct i as [|[|[|[|[|i]]]]]. Qed.

Lemma stateX3_nondecreasing : nondecreasing (slot_data stateX3 0).
Proof.
  change (slot_data stateX3 0) with
    (slot_data (run (OAddFrame <$> [frameX; frameX; frameX]) stateX) 0).
  apply addFrames_timeline_ok;
    [apply stateX_ok|apply empty_timeline_ok, stateX_empty].
Qed.


(** ** Witnesses *)

Lemma clock_invariant_witness :
  let s := run [OUpdateDevices [dev "X"]; OAddFrame frameX; OAdvance 400;
                OUpdate true 16] init in
  tFrameEnd s <= tTotal s.
Proof.
  apply (proj2 (clock_invariant
                  [OUpdateDevices [dev "X"]; OAddFrame frameX; OAdvance 400;
                   OUpdate true 16])).
  vm_compute. repeat split; discriminate.
Defined.

Lemma addFrame_appends_witness :
  slot_data (addFrame frameX stateX).2 0 =
    slot_data stateX 0 ++ [pt 0 1; pt (0 + 1000 - Qmin (1000 * 0.2) 100) 1].
Proof.
  destruct addFrame_appends as [H _].
  destruct (H frameX stateX) as (H1 & _);
    [apply state_ok_own, stateX_ok|reflexivity|].
  apply (H1 0%nat (dev "X")). reflexivity.
Defined.

Lemma prune_window_witness :
  slot_data (prune stateX3).2 0 = [pt 1900 1; pt 2000 1; pt 2900 1] ∧
  6950 - VISIBLE_PAST <= pt_x (pt 2000 1).
Proof.
  split; [reflexivity|].
  destruct (prune_window stateX3 0) as (_ & _ & H).
  apply (proj1 (H stateX3_nondecreasing) 1%nat); [lia|reflexivity].
Defined.


Lemma addFrame_monotonic_witness :
  nondecreasing (slot_data (run (OAddFrame <$> [frameX; frameX]) stateX) 0).
Proof.
  apply addFrame_monotonic; [apply state_ok_own, stateX_ok|apply stateX_empty].
Defined.

(** ** Where the description says more than the code does (C3, C4, C9) *)

(** C3 as stated fails.  After the device lists [A] and then [A, A], the
    two datasets hold one array: the second list finds the copy kept under
    the name A for both.  A frame then pushes its two samples once per
    dataset, and the sequence of A receives four samples, not two. *)
Lemma addFrame_appends_counterexample :
  let s := run [OMessage (UpdateDevices [dev "A"]) 1 2 1;
                OMessage (UpdateDevices [dev "A"; dev "A"]) 3 4 1] init in
  let r := addFrame frameX s in
  devices s = [dev "A"; dev "A"] ∧
  mapVibeTargets frameX s !! "A" = Some (target "A" 1) ∧
  slot_data s 0 = [] ∧ tTotal s = 0 ∧
  slot_data r.2 0 = [pt 0 1; pt 900 1; pt 0 1; pt 900 1] ∧
  ¬ (slot_data r.2 0 =
       slot_data s 0 ++
         [pt (tTotal s) 1;
          pt (tTotal s + 1000 - Qmin (1000 * 0.2) 100) 1]).
Proof. vm_compute. repeat split; try done. Qed.

(** C9 as stated fails.  In the same state, left as it is by [resetGroup],
    every array is empty and the clock is zero; one [addFrame] gives the
    sequence of A the times 0, 900, 0, 900. *)
Lemma addFrame_monotonic_counterexample :
  let s := (resetGroup
              (run [OMessage (UpdateDevices [dev "A"]) 1 2 1;
                    OMessage (UpdateDevices [dev "A"; dev "A"]) 3 4 1]
                 init)).2 in
  length (datasets s) = 5%nat ∧
  slot_data s <$> [0; 1; 2; 3; 4]%nat = [[]; []; []; []; []] ∧
  tTotal s = 0 ∧
  slot_data (run (OAddFrame <$> [frameX]) s) 0
    = [pt 0 1; pt 900 1; pt 0 1; pt 900 1] ∧
  ¬ nondecreasing (slot_data (run (OAddFrame <$> [frameX]) s) 0).
Proof.
  cbv zeta. set (s := (resetGroup _).2).
  assert (slot_data (run (OAddFrame <$> [frameX]) s) 0
          = [pt 0 1; pt 900 1; pt 0 1; pt 900 1]) as Hd by by vm_compute.
  split; [by vm_compute|]. split; [by vm_compute|]. split; [by vm_compute|].
  split; [done|]. rewrite Hd. intros H.
  specialize (H 1%nat 2%nat (pt 900 1) (pt 0 1) ltac:(lia) eq_refl eq_refl).
  by vm_compute in H.
Qed.

(** C4 as stated fails.  With the devices A and B, an EXCLUSIVE frame for
    B, an OVERRIDE frame, an [advance] and a tick of the loop, the array of
    B holds the times 0, 900, 0, 900 at [tNow = 5500]: the loop of [prune]
    stops at the first sample at or after the cutoff 500, and two samples
    before the cutoff are left. *)
Lemma prune_window_counterexample :
  let s := run [OMessage (UpdateDevices [dev "A"; dev "B"]) 1 2 1;
                OMessage (AddFrame frameB) 3 4 1;
                OMessage (AddFrame frameX) 5 6 1;
                OMessage (Advance 5500) 7 8 1;
                OUpdateLoop 6000 2] init in
  let cutoff := tNow s - VISIBLE_PAST in
  let data' := slot_data (prune s).2 1 in
  tNow s = 5500 ∧
  data' = [pt 0 0.5; pt 900 0.5; pt 0 1; pt 900 1] ∧
  ¬ (∀ j1 j2 p1 p2, data' !! j1 = Some p1 → data' !! j2 = Some p2 →
                     pt_x p1 < cutoff → pt_x p2 < cutoff → j1 = j2).
Proof.
  cbv zeta. set (s := run _ init).
  assert (tNow s = 5500) as Hn by by vm_compute.
  assert (slot_data (prune s).2 1 = [pt 0 0.5; pt 900 0.5; pt 0 1; pt 900 1])
    as Hd by by vm_compute.
  split; [done|]. split; [done|]. rewrite Hd, Hn. intros H.
  specialize (H 0%nat 2%nat (pt 0 0.5) (pt 0 1) eq_refl eq_refl).
  assert (0%nat = 2%nat); [|done]. apply H; by vm_compute.
Qed.

(** ** Where the code departs from its description (C2, C8) *)

(** What [resetGroup] does: the clock and the user name are always reset;
    the arrays are emptied, and [true] returned, exactly when dataset 0 is
    not empty. *)
Lemma resetGroup_effect (s : State) :
  let r := resetGroup s in
  tFrameBegin r.2 = 0 ∧ tFrameEnd r.2 = 0 ∧ tNow r.2 = 0 ∧ tTotal r.2 = 0 ∧
  username r.2 = "" ∧
  r.1 = negb (isEmpty s) ∧
  (isEmpty s = false → ∀ i, slot_data r.2 i = []) ∧
  (isEmpty s = true → ∀ i, slot_data r.2 i = slot_data s i).
Proof.
  unfold resetGroup.
  change (isEmpty (set_username _ _)) with (isEmpty s).
  destruct (isEmpty s); simpl; repeat split; try done.
  intros _ i. unfold slot_data. simpl.
  destruct (datasets s !! i) as [l|] eqn:Hi; [|done].
  rewrite clear_from_read, bool_decide_eq_true_2; [done|].
  rewrite drop_0. by eapply list_elem_of_lookup_2.
Qed.

(** C8 at its failing input.  With devices A, B and one EXCLUSIVE frame for
    B, dataset 0 is empty and dataset 1 is not: [resetGroup] zeroes the
    clock, returns [false] and leaves the samples of B.  The same state is
    reached through the message handler.  And with empty arrays and a clock
    that is not zero, [resetGroup] zeroes the clock and returns [false]. *)
Theorem resetGroup_first_dataset_only :
  (let s := run [OUpdateDevices [dev "A"; dev "B"]; OAddFrame frameB] init in
   slot_data s 0 = [] ∧
   slot_data s 1 = [pt 0 0.5; pt 900 0.5] ∧
   tTotal s = 1000 ∧
   (resetGroup s).1 = false ∧
   tTotal (resetGroup s).2 = 0 ∧
   slot_data (resetGroup s).2 1 = [pt 0 0.5; pt 900 0.5]) ∧
  (let s := run [OMessage (UpdateDevices [dev "A"; dev "B"]) 1 2 1;
                 OMessage (AddFrame frameB) 3 4 1] init in
   slot_data s 1 = [pt 0 0.5; pt 900 0.5] ∧
   (resetGroup s).1 = false ∧
   slot_data (onmessage ResetGroup 5 6 1 s) 1 = [pt 0 0.5; pt 900 0.5]) ∧
  (let s := (advance 1000 init).2 in
   tFrameEnd s = 0 + 1000 ∧
   (resetGroup s).1 = false ∧
   tFrameEnd (resetGroup s).2 = 0).
Proof. by vm_compute. Qed.

(** C2 at its failing inputs.  The message reset-group on a state with
    samples changes the state ([resetGroup] returns [true]), yet the
    dispatcher drops that result: [doUpdate] stays [false], [update(false)]
    is not called ([tUpdatedAt] keeps its value) and no redraw follows.  The
    message update-devices with the list [A] on the initial state reports a
    change and [update(false)] is called, yet no redraw follows: [update]
    redraws only when [prune] removed a sample. *)
Theorem changed_without_redraw :
  (let s := run [OMessage (UpdateDevices [dev "X"]) 1 2 1;
                 OMessage (AddFrame frameX) 3 4 1] init in
   slot_data s 0 = [pt 0 1; pt 900 1] ∧
   (resetGroup s).1 = true ∧
   (dispatch ResetGroup 5 2 s).1 = false ∧
   slot_data (onmessage ResetGroup 5 6 2 s) 0 = [] ∧
   tUpdatedAt (onmessage ResetGroup 5 6 2 s) = tUpdatedAt s ∧
   redraws (onmessage ResetGroup 5 6 2 s) = redraws s) ∧
  ((dispatch (UpdateDevices [dev "A"]) 1 1 init).1 = true ∧
   devices (onmessage (UpdateDevices [dev "A"]) 1 2 1 init) = [dev "A"] ∧
   tUpdatedAt (onmessage (UpdateDevices [dev "A"]) 1 2 1 init) = 2 ∧
   redraws (onmessage (UpdateDevices [dev "A"]) 1 2 1 init)
     = redraws init).
Proof. by vm_compute. Qed.

(** Why well-formedness asks for distinct device names: a device list that
    names a known device twice makes two datasets hold one array, and a
    frame then appends its samples to that array twice. *)
Example shared_array :
  let s := run [OUpdateDevices [dev "A"];
                OUpdateDevices [dev "A"; dev "A"]] init in
  datasets s !! 0%nat = datasets s !! 1%nat ∧
  slot_data (addFrame frameX s).2 0
    = [pt 0 1; pt 900 1; pt 0 1; pt 900 1].
Proof. by vm_compute. Qed.

(** * Further properties of the code *)

(** ** The value under the cursor: [getChartValueAtTime] *)

Section cursor_value.
Variable time : Q.
Implicit Types (data : list Point) (last : option Point).

Lemma cursor_loop_app data1 data2 last :
  (∀ p, p ∈ data1 → pt_x p <= time) →
  ∃ last', getChartValueAtTime_loop time (data1 ++ data2) last =
           getChartValueAtTime_loop time data2 last'.
Proof.
  revert last. induction data1 as [|a data1 IH]; intros last H;
    [by exists last|].
  assert (Qlt_bool time (pt_x a) = false) as Ha
    by (apply Qlt_bool_false, H; left).
  cbn [app getChartValueAtTime_loop]. rewrite Ha.
  apply IH. intros p Hp. apply H. by right.
Qed.

Lemma cursor_loop_cons data p last :
  pt_x p <= time →
  getChartValueAtTime_loop time (p :: data) last =
    getChartValueAtTime_loop time (p :: data) None.
Proof.
  intros H. simpl. by apply Qlt_bool_false in H as ->.
Qed.

Lemma cursor_loop_Some data p :
  is_Some (getChartValueAtTime_loop time data (Some p)).
Proof.
  revert p. induction data as [|a data IH]; intros p; simpl; [by eexists|].
  destruct (Qlt_bool time (pt_x a)); [by eexists|apply IH].
Qed.

(** The result of the loop is the point before the first one after [time]:
    it is at an index [k] such that no point up to [k] is after [time] and
    the point at [k + 1], if any, is. *)
Lemma cursor_loop_index data p :
  getChartValueAtTime_loop time data None = Some p ↔
  ∃ k, data !! k = Some p ∧
       (∀ j q, (j ≤ k)%nat → data !! j = Some q → pt_x q <= time) ∧
       (∀ q, data !! S k = Some q → time < pt_x q).
Proof.
  assert (∀ data a p,
            getChartValueAtTime_loop time data (Some a) = Some p ↔
            ∃ k, (a :: data) !! k = Some p ∧
                 (∀ j q, (1 ≤ j ≤ k)%nat → (a :: data) !! j = Some q →
                         pt_x q <= time) ∧
                 (∀ q, (a :: data) !! S k = Some q → time < pt_x q)) as Hgen.
  { clear. induction data as [|b data IH]; intros a p; simpl.
    - split.
      + intros [= ->]. exists 0%nat. split; [done|]. split; [|done].
        intros [|j] q Hj Hq; [lia|done].
      + intros ([|k] & Hk & _); [by simplify_eq/=|done].
    - destruct (Qlt_bool time (pt_x b)) eqn:E.
      + apply Qlt_bool_true in E. split.
        * intros [= ->]. exists 0%nat. split; [done|]. split.
          -- intros j q Hj. lia.
          -- by intros q [= ->].
        * intros ([|k] & Hk & Hle & Hgt); [by simplify_eq/=|].
          specialize (Hle 1%nat b ltac:(lia) eq_refl). lra.
      + apply Qlt_bool_false in E. rewrite IH. split.
        * intros (k & Hk & Hle & Hgt). exists (S k). split; [done|].
          split; [|done]. intros [|[|j]] q Hj Hq; [lia| |].
          -- by simplify_eq/=.
          -- apply (Hle (S j)); [lia|done].
        * intros ([|k] & Hk & Hle & Hgt).
          -- specialize (Hgt b eq_refl). lra.
          -- exists k. split; [done|]. split; [|done].
             intros j q Hj Hq. apply (Hle (S j)); [lia|done]. }
  destruct data as [|a data]; simpl.
  - split; [done|]. by intros (k & Hk & _).
  - destruct (Qlt_bool time (pt_x a)) eqn:E.
    + apply Qlt_bool_true in E. split; [done|].
      intros (k & Hk & Hle & _). specialize (Hle 0%nat a ltac:(lia) eq_refl).
      lra.
    + apply Qlt_bool_false in E. rewrite Hgen. split.
      * intros (k & Hk & Hle & Hgt). exists k. split; [done|].
        split; [|done]. intros [|j] q Hj Hq; [by simplify_eq/=|].
        apply (Hle (S j)); [lia|done].
      * intros (k & Hk & Hle & Hgt). exists k. split; [done|].
        split; [|done]. intros j q Hj Hq. apply (Hle j); [lia|done].
Qed.
End cursor_value.

Lemma getChartValueAtTime_null_iff (data : list Point) (time : Q) :
  getChartValueAtTime data time = None ↔
  ∀ p, head data = Some p → time < pt_x p.
Proof.
  unfold getChartValueAtTime. rewrite fmap_None.
  destruct data as [|a data]; simpl.
  - split; [by intros _ p|done].
  - destruct (Qlt_bool time (pt_x a)) eqn:E.
    + apply Qlt_bool_true in E. split; [|done]. by intros _ p [= <-].
    + apply Qlt_bool_false in E. split.
      * intros H. destruct (cursor_loop_Some time data a) as [p Hp].
        congruence.
      * intros H. specialize (H a eq_refl). lra.
Qed.

(** X1.  [getChartValueAtTime] answers [null] exactly when the array is
    empty or its first point is after the queried time. *)
Theorem getChartValueAtTime_null (data : list Point) (time : Q) :
  getChartValueAtTime data time = None ↔
  ∀ p, head data = Some p → time < pt_x p.
Proof. apply getChartValueAtTime_null_iff. Qed.

(** X2.  On an array ordered by time, [getChartValueAtTime] answers the
    value of the last point that is not after the queried time: a point at
    or before that time after which every point is later. *)
Theorem getChartValueAtTime_ordered (data : list Point) (time v : Q) :
  nondecreasing data →
  getChartValueAtTime data time = Some v ↔
  ∃ k p, data !! k = Some p ∧ pt_y p = v ∧ pt_x p <= time ∧
         ∀ j q, (k < j)%nat → data !! j = Some q → time < pt_x q.
Proof.
  intros Hs. unfold getChartValueAtTime. rewrite fmap_Some. split.
  - intros (p & Hp & ->). apply cursor_loop_index in Hp
      as (k & Hk & Hle & Hgt).
    exists k, p. split; [done|]. split; [done|].
    split; [by apply (Hle k)|]. intros j q Hj Hq.
    destruct (lookup_lt_is_Some_2 data (S k)) as [q' Hq'].
    { apply lookup_lt_Some in Hq. lia. }
    specialize (Hgt q' Hq').
    pose proof (Hs (S k) j q' q ltac:(lia) Hq' Hq). lra.
  - intros (k & p & Hk & <- & Hle & Hgt). exists p. split; [|done].
    apply cursor_loop_index. exists k. split; [done|]. split.
    + intros j q Hj Hq. pose proof (Hs j k q p Hj Hq Hk). lra.
    + intros q Hq. apply (Hgt (S k)); [lia|done].
Qed.

Lemma getChartValueAtTime_ordered_witness :
  getChartValueAtTime (slot_data stateX3 0) 950 = Some 1 ↔
  ∃ k p, slot_data stateX3 0 !! k = Some p ∧ pt_y p = 1 ∧ pt_x p <= 950 ∧
         ∀ j q, (k < j)%nat → slot_data stateX3 0 !! j = Some q →
                950 < pt_x q.
Proof.
  apply getChartValueAtTime_ordered, stateX3_nondecreasing.
Defined.

(** The points that [prune] drops and the first point it keeps are all
    before the cutoff, so a query at or after the cutoff does not see the
    difference. *)
Lemma pruned_cursor (cutoff time : Q) (data : list Point) :
  cutoff <= time →
  (∃ p, p ∈ data ∧ cutoff <= pt_x p) →
  getChartValueAtTime (pruned cutoff data) time
  = getChartValueAtTime data time.
Proof.
  intros Ht (p0 & Hin & Hp0). unfold pruned.
  destruct (prune_data_cases cutoff data)
    as [(-> & ->)|[(_ & Hi & _)|[(Hi & ->)|(_ & _ & ->)]]]; simpl;
    try done.
  - exfalso. assert (pt_x p0 < cutoff); [|lra].
    apply (first_past_before cutoff data). rewrite Hi.
    by rewrite take_ge by lia.
  - set (i := first_past cutoff data) in *.
    destruct (lookup_lt_is_Some_2 data (i - 1)) as [a Ha]; [lia|].
    assert (∀ p, p ∈ take i data → pt_x p <= time) as Hbefore.
    { intros p Hp. apply (first_past_before cutoff data) in Hp. lra. }
    assert (drop (i - 1) data = a :: drop i data) as Hdrop.
    { rewrite (drop_S data a (i - 1)) by done.
      by replace (S (i - 1)) with i by lia. }
    assert (pt_x a <= time) as Hat.
    { apply Hbefore. apply list_elem_of_lookup. exists (i - 1)%nat.
      by rewrite lookup_take_lt by lia. }
    unfold getChartValueAtTime. f_equal.
    rewrite <- (take_drop (i - 1) data) at 2.
    destruct (cursor_loop_app time (take (i - 1) data) (drop (i - 1) data)
                None) as [last' ->].
    { intros p Hp. apply Hbefore.
      apply list_elem_of_lookup in Hp as (n & Hn).
      apply lookup_take_Some in Hn as [Hn Hlt].
      apply list_elem_of_lookup. exists n. by rewrite lookup_take_lt by lia. }
    rewrite Hdrop. symmetry. by apply cursor_loop_cons.
Qed.

(** X3.  Pruning does not change the value under the cursor: as long as a
    dataset still has a sample at or after the cutoff
    [tNow - VISIBLE_PAST], [getChartValueAtTime] answers the same before
    and after [prune] for every time from the cutoff on, [tNow]
    included. *)
Theorem prune_keeps_cursor_value (s : State) (i : nat) (time : Q) :
  tNow s - VISIBLE_PAST <= time →
  (∃ p, p ∈ slot_data s i ∧ tNow s - VISIBLE_PAST <= pt_x p) →
  getChartValueAtTime (slot_data (prune s).2 i) time
  = getChartValueAtTime (slot_data s i) time.
Proof. intros Ht Hp. rewrite prune_slot. by apply pruned_cursor. Qed.

Lemma prune_keeps_cursor_value_witness :
  getChartValueAtTime (slot_data (prune stateX3).2 0) 1950
  = getChartValueAtTime (slot_data stateX3 0) 1950.
Proof.
  apply prune_keeps_cursor_value; [by vm_compute|].
  exists (pt 2900 1). split; [|by vm_compute].
  apply list_elem_of_lookup. by exists 5%nat.
Defined.

(** X4.  Once every sample of a dataset is before the cutoff, [prune]
    empties it and the value under the cursor is lost: the answer for
    [tNow], which was the value of some sample, becomes [null]. *)
Theorem prune_loses_cursor_value (s : State) (i : nat) :
  slot_data s i ≠ [] →
  (∀ p, p ∈ slot_data s i → pt_x p < tNow s - VISIBLE_PAST) →
  is_Some (getChartValueAtTime (slot_data s i) (tNow s)) ∧
  getChartValueAtTime (slot_data (prune s).2 i) (tNow s) = None.
Proof.
  intros Hne Hall. split.
  - destruct (getChartValueAtTime (slot_data s i) (tNow s)) eqn:E;
      [by eexists|].
    destruct (slot_data s i) as [|a data] eqn:Hd; [done|].
    pose proof (proj1 (getChartValueAtTime_null_iff _ _) E a eq_refl) as Ha.
    specialize (Hall a ltac:(left)).
    unfold VISIBLE_PAST in Hall. lra.
  - rewrite prune_slot, pruned_all_before by done. done.
Qed.

Lemma prune_loses_cursor_value_witness :
  getChartValueAtTime
    (slot_data (prune (set_tNow 9000 stateX3)).2 0) 9000 = None.
Proof.
  apply (prune_loses_cursor_value (set_tNow 9000 stateX3) 0); [done|].
  intros p Hp. vm_compute in Hp.
  repeat (apply elem_of_cons in Hp as [->|Hp]; [by vm_compute|]).
  by apply not_elem_of_nil in Hp.
Defined.

(** X5.  A frame sets the value under the cursor from its start on: in a
    well-formed state whose samples of the dataset are not after [tTotal],
    after [addFrame] gave a device the target [tg], [getChartValueAtTime]
    answers [tg]'s value for every time at or after the old [tTotal]. *)
Theorem addFrame_sets_cursor_value (frame : VibeFrame) (s : State)
    (i : nat) (device : VibeDevice) (tg : VibeTarget) (time : Q) :
  state_ok s → 0 < frame_duration frame →
  (∀ p, p ∈ slot_data s i → pt_x p <= tTotal s) →
  devices s !! i = Some device →
  mapVibeTargets frame s !! device_name device = Some tg →
  tTotal s <= time →
  getChartValueAtTime (slot_data (addFrame frame s).2 i) time
  = Some (target_value tg).
Proof.
  intros Hok Hdur Hbound Hi Htg Ht.
  destruct (addFrame_effect frame s Hok Hdur) as (Hslot & _).
  cbv zeta in Hslot. rewrite Hslot, Hi. simpl. unfold appended.
  rewrite Htg. unfold getChartValueAtTime.
  destruct (cursor_loop_app time (slot_data s i)
              (frame_points (tTotal s) frame tg) None) as [last' ->].
  { intros p Hp. specialize (Hbound p Hp). lra. }
  unfold frame_points. cbn [getChartValueAtTime_loop pt_x].
  apply Qlt_bool_false in Ht as ->.
  by destruct (Qlt_bool time _).
Qed.

Lemma addFrame_sets_cursor_value_witness :
  getChartValueAtTime (slot_data (addFrame frameX stateX).2 0) 250 = Some 1.
Proof.
  apply (addFrame_sets_cursor_value frameX stateX 0 (dev "X")
           (target "X" 1) 250);
    [apply stateX_ok|by vm_compute| |done|by vm_compute|by vm_compute].
  intros p Hp. rewrite stateX_empty in Hp. by apply not_elem_of_nil in Hp.
Defined.

(** ** [prune]: what its result tells *)

Section prune_flag.
Variable cutoff : Q.

Lemma prune_data_shorter (data data' : list Point) :
  prune_data cutoff data = Some data' → (length data' < length data)%nat.
Proof.
  destruct (prune_data_cases cutoff data)
    as [(_ & ->)|[(Hne & _ & ->)|[(Hi & ->)|(_ & _ & ->)]]]; try done.
  - intros [= <-]. destruct data; [done|simpl; lia].
  - intros [= <-]. rewrite length_drop. lia.
Qed.

Lemma pruned_length (data : list Point) :
  (length (pruned cutoff data) ≤ length data)%nat.
Proof.
  unfold pruned. destruct (prune_data cutoff data) as [d|] eqn:E; [|done].
  apply prune_data_shorter in E. simpl. lia.
Qed.

Lemma prune_loop_lengths (dsets : list loc)
    (acc : bool * list (list Point)) (l : loc) :
  (length (read (foldl (λ acc ds, prune_body cutoff ds acc) acc dsets).2 l)
   ≤ length (read acc.2 l))%nat.
Proof.
  revert acc. induction dsets as [|ds dsets IH]; intros acc; simpl; [done|].
  etrans; [apply IH|]. rewrite prune_body_read.
  case_decide; [subst; apply pruned_length|done].
Qed.

(** The loop answers [false] only if it started with [false] and wrote
    nothing; when it turns [false] into [true], some array it visited is
    shorter afterwards. *)
Lemma prune_loop_flag (dsets : list loc) (acc : bool * list (list Point)) :
  let r := foldl (λ acc ds, prune_body cutoff ds acc) acc dsets in
  (r.1 = false → r = acc) ∧
  (r.1 = true → acc.1 = true ∨
     ∃ l, l ∈ dsets ∧ (length (read r.2 l) < length (read acc.2 l))%nat).
Proof.
  revert acc. induction dsets as [|ds dsets IH]; intros acc; simpl.
  { split; [done|]. by left. }
  destruct (IH (prune_body cutoff ds acc)) as [Hf Ht]. split.
  - intros Hr. rewrite (Hf Hr) in Hr |- *.
    unfold prune_body in *. by destruct (prune_data _ _).
  - intros Hr. destruct (Ht Hr) as [Hb|(l & Hl & Hlen)].
    + unfold prune_body in Hb.
      destruct (prune_data cutoff (read acc.2 ds)) as [d|] eqn:E;
        [|by left].
      right. exists ds. split; [left|].
      eapply Nat.le_lt_trans; [apply prune_loop_lengths|].
      rewrite prune_body_read, decide_True by done. unfold pruned.
      rewrite E. simpl. by apply prune_data_shorter.
    + right. exists l. split; [by right|].
      eapply Nat.lt_le_trans; [done|]. rewrite prune_body_read.
      case_decide; [subst; apply pruned_length|done].
Qed.

Lemma prune_loop_idle (dsets : list loc) (acc : bool * list (list Point)) :
  (∀ l, l ∈ dsets → prune_data cutoff (read acc.2 l) = None) →
  foldl (λ acc ds, prune_body cutoff ds acc) acc dsets = acc.
Proof.
  induction dsets as [|ds dsets IH]; intros H; simpl; [done|].
  assert (prune_body cutoff ds acc = acc) as ->.
  { unfold prune_body. by rewrite H by left. }
  apply IH. intros l Hl. apply H. by right.
Qed.
End prune_flag.

Lemma prune_unchanged (s : State) : (prune s).1 = false → (prune s).2 = s.
Proof.
  unfold prune.
  destruct (prune_loop_flag (tNow s - VISIBLE_PAST) (datasets s)
              (false, store s)) as [Hf _].
  destruct (foldl _ _ _) as [c st]. simpl in *. intros ->.
  specialize (Hf eq_refl). injection Hf as ->. apply set_store_id.
Qed.

Lemma prune_changed (s : State) :
  (prune s).1 = true →
  ∃ i, (length (slot_data (prune s).2 i) < length (slot_data s i))%nat.
Proof.
  unfold prune.
  destruct (prune_loop_flag (tNow s - VISIBLE_PAST) (datasets s)
              (false, store s)) as [_ Ht].
  destruct (foldl _ _ _) as [c st]. simpl in *. intros ->.
  destruct (Ht eq_refl) as [?|(l & Hl & Hlen)]; [done|].
  apply list_elem_of_lookup in Hl as (i & Hi). exists i.
  unfold slot_data. simpl. by rewrite Hi.
Qed.

(** X6.  [prune] reports a change exactly when it removed samples: it
    answers [false] iff it leaves the state as it is, and when it answers
    [true] some dataset holds fewer samples than before. *)
Theorem prune_reports_removal (s : State) :
  ((prune s).1 = false ↔ (prune s).2 = s) ∧
  ((prune s).1 = true →
   ∃ i, (length (slot_data (prune s).2 i) < length (slot_data s i))%nat).
Proof.
  split; [|apply prune_changed]. split; [apply prune_unchanged|].
  intros Hs. destruct (prune s).1 eqn:E; [|done].
  destruct (prune_changed s E) as [i Hi]. rewrite Hs in Hi. lia.
Qed.

Lemma prune_prune (s : State) : prune (prune s).2 = (false, (prune s).2).
Proof.
  destruct (prune_fields s) as (Hds & _ & _ & _ & Hn & _).
  unfold prune at 1. rewrite Hn, Hds.
  rewrite prune_loop_idle; [by rewrite set_store_id|].
  intros l Hl. simpl.
  destruct (prune_loop_read (tNow s - VISIBLE_PAST) (datasets s)
              (false, store s) (false, store s)) as (_ & H & _);
    [by left|].
  specialize (H l Hl). simpl in H.
  assert (store (prune s).2
          = (foldl (λ acc ds, prune_body (tNow s - VISIBLE_PAST) ds acc)
               (false, store s) (datasets s)).2) as ->
    by (unfold prune; by destruct (foldl _ _ _)).
  rewrite H. apply pruned_idem.
Qed.

(** X7.  [prune] is idempotent: a second [prune] right after the first
    answers [false] and changes nothing. *)
Theorem prune_idempotent (s : State) :
  (prune (prune s).2).1 = false ∧ (prune (prune s).2).2 = (prune s).2.
Proof. by rewrite prune_prune. Qed.

(** ** [update]: tick, prune, redraw *)

Lemma update_stale (adv : bool) (t : Q) (s : State) :
  t <= tUpdatedAt s → update adv t s = (false, set_tUpdatedAt t s).
Proof.
  intros H. unfold update.
  assert (Qle_bool (t - tUpdatedAt s) 0 = true) as ->; [|done].
  apply Qle_bool_true. lra.
Qed.

(** [update] when the wall clock has moved: the cursor moves, then [prune]
    runs, then the chart is redrawn if either changed something. *)
Lemma update_unfold (adv : bool) (t : Q) (s : State) :
  tUpdatedAt s < t →
  update adv t s =
    let s1 := set_tUpdatedAt t s in
    let tick := adv && Qlt_bool (tNow s) (tFrameEnd s) in
    let now' := Qmin (tNow s + (t - tUpdatedAt s)) (tFrameEnd s) in
    let s2 :=
      if tick
      then set_scale (now' - VISIBLE_PAST) (now' + VISIBLE_FUTURE)
             (set_tNow now' s1)
      else s1 in
    let r := prune s2 in
    (r.1 || tick, if r.1 || tick then chart_update r.2 else r.2).
Proof.
  intros H. unfold update.
  assert (Qle_bool (t - tUpdatedAt s) 0 = false) as ->
    by (apply Qle_bool_false; lra).
  cbn [tNow tFrameEnd set_tUpdatedAt]. cbv zeta.
  destruct (adv && Qlt_bool (tNow s) (tFrameEnd s)); cbn [andb];
    by destruct (prune _) as [c s'].
Qed.

(** X8.  [update] reports a change exactly when it redraws: the number of
    redraws grows by one when it answers [true] and stays when it answers
    [false]; and when it answers [false] nothing but the time stamp
    [tUpdatedAt] has changed. *)
Theorem update_reports_redraw (adv : bool) (t : Q) (s : State) :
  redraws (update adv t s).2
    = (if (update adv t s).1 then S (redraws s) else redraws s) ∧
  tUpdatedAt (update adv t s).2 = t ∧
  ((update adv t s).1 = false → (update adv t s).2 = set_tUpdatedAt t s).
Proof.
  destruct (Qlt_le_dec (tUpdatedAt s) t) as [Hdt|Hdt];
    [|by rewrite update_stale].
  rewrite update_unfold by done. cbv zeta.
  set (tick := adv && Qlt_bool (tNow s) (tFrameEnd s)).
  set (s2 := if tick then _ else _).
  assert (redraws s2 = redraws s ∧ tUpdatedAt s2 = t) as [Hr Hu]
    by (subst s2; by destruct tick).
  destruct (prune_fields s2) as (_ & _ & _ & _ & _ & _ & Hpr).
  assert (tUpdatedAt (prune s2).2 = tUpdatedAt s2) as Hpu
    by (unfold prune; by destruct (foldl _ _ _)).
  destruct (prune s2).1 eqn:Ep; simpl.
  - split; [by rewrite Hpr, Hr|]. split; [by rewrite Hpu|done].
  - destruct tick eqn:Et; simpl.
    + split; [by rewrite Hpr, Hr|]. split; [by rewrite Hpu|done].
    + split; [by rewrite Hpr, Hr|]. split; [by rewrite Hpu|].
      intros _. by rewrite (prune_unchanged s2 Ep).
Qed.

(** X9.  The tick of [update]: with [advance] set, a wall clock that has
    moved and a cursor before [tFrameEnd], [update] answers [true], moves
    [tNow] forward by the elapsed time but not past [tFrameEnd], lands on
    [tFrameEnd] when the elapsed time covers what was left, and centres the
    visible window on the new [tNow].  In every other case [tNow] and the
    window stay where they were. *)
Theorem update_tick (adv : bool) (t : Q) (s : State) :
  (adv = true → tUpdatedAt s < t → tNow s < tFrameEnd s →
   let s' := (update adv t s).2 in
   (update adv t s).1 = true ∧
   tNow s' = Qmin (tNow s + (t - tUpdatedAt s)) (tFrameEnd s) ∧
   tNow s < tNow s' ∧ tNow s' <= tFrameEnd s ∧
   (tFrameEnd s - tNow s <= t - tUpdatedAt s → tNow s' == tFrameEnd s) ∧
   scale_min s' = tNow s' - VISIBLE_PAST ∧
   scale_max s' = tNow s' + VISIBLE_FUTURE) ∧
  (adv = false ∨ t <= tUpdatedAt s ∨ tFrameEnd s <= tNow s →
   let s' := (update adv t s).2 in
   tNow s' = tNow s ∧ scale_min s' = scale_min s ∧
   scale_max s' = scale_max s).
Proof.
  assert (∀ s2, tNow (prune s2).2 = tNow s2 ∧
                scale_min (prune s2).2 = scale_min s2 ∧
                scale_max (prune s2).2 = scale_max s2) as Hprune
    by (intros s2; unfold prune; by destruct (foldl _ _ _)).
  split.
  - intros -> Hdt Hnow s'. subst s'. rewrite update_unfold by done.
    cbv zeta. apply Qlt_bool_true in Hnow as Hb. rewrite Hb.
    cbn [andb]. rewrite orb_true_r. cbn [fst snd].
    set (now' := Qmin _ _).
    destruct (Hprune (set_scale (now' - VISIBLE_PAST) (now' + VISIBLE_FUTURE)
                        (set_tNow now' (set_tUpdatedAt t s))))
      as (Hn & Hlo & Hhi).
    cbn [tNow scale_min scale_max chart_update]. rewrite Hn, Hlo, Hhi.
    cbn [tNow scale_min scale_max set_scale set_tNow].
    split; [done|]. split; [done|].
    pose proof (Q.le_min_r (tNow s + (t - tUpdatedAt s)) (tFrameEnd s)).
    assert (tNow s < now') by (apply Q.min_glb_lt; lra).
    split; [done|]. split; [done|]. split; [|done].
    intros Hrest. apply Q.min_r. lra.
  - intros Hcase s'. subst s'.
    destruct (Qlt_le_dec (tUpdatedAt s) t) as [Hdt|Hdt];
      [|by rewrite update_stale].
    rewrite update_unfold by done. cbv zeta.
    assert (adv && Qlt_bool (tNow s) (tFrameEnd s) = false) as ->.
    { destruct Hcase as [->|[?|Hge]]; [done|lra|].
      apply Qlt_bool_false in Hge as ->. apply andb_false_r. }
    destruct (Hprune (set_tUpdatedAt t s)) as (Hn & Hlo & Hhi).
    rewrite orb_false_r. cbn [fst snd].
    by destruct (prune _).1.
Qed.

Lemma update_tick_witness :
  let s := (advance 400 (addFrame frameX stateX).2).2 in
  tNow (update true 16 s).2 = Qmin (0 + (16 - 0)) (0 + 400) ∧
  tNow (update false 16 s).2 = 0.
Proof.
  intros s. split.
  - apply (proj1 (update_tick true 16 s)); [done|by vm_compute..].
  - apply (proj2 (update_tick false 16 s)). by left.
Defined.

Lemma update_slot (adv : bool) (t : Q) (s : State) (i : nat) :
  tUpdatedAt s < t →
  slot_data (update adv t s).2 i
  = pruned (tNow (update adv t s).2 - VISIBLE_PAST) (slot_data s i).
Proof.
  intros Hdt. rewrite update_unfold by done. cbv zeta.
  set (tick := adv && Qlt_bool (tNow s) (tFrameEnd s)).
  set (s2 := if tick then _ else _).
  assert (∀ j, slot_data s2 j = slot_data s j) as Hs2
    by (intros j; subst s2; by destruct tick).
  assert (tNow (prune s2).2 = tNow s2) as Hn
    by (unfold prune; by destruct (foldl _ _ _)).
  assert (∀ s', slot_data (chart_update s') i = slot_data s' i) as Hcu
    by done.
  cbn [snd].
  destruct ((prune s2).1 || tick); rewrite ?Hcu; cbn [tNow chart_update];
    by rewrite Hn, prune_slot, Hs2.
Qed.

(** X10.  Every [update] with a wall clock that has moved prunes against
    the cursor it has just set: each dataset then shows the pruning of its
    samples at the cutoff [tNow - VISIBLE_PAST], [tNow] being the new
    one. *)
Theorem update_prunes (adv : bool) (t : Q) (s : State) (i : nat) :
  tUpdatedAt s < t →
  slot_data (update adv t s).2 i
  = pruned (tNow (update adv t s).2 - VISIBLE_PAST) (slot_data s i).
Proof. apply update_slot. Qed.

Lemma update_prunes_witness :
  slot_data (update false 1 stateX3).2 0
  = pruned (tNow (update false 1 stateX3).2 - VISIBLE_PAST)
      (slot_data stateX3 0).
Proof. apply update_prunes. by vm_compute. Defined.

(** ** What the operations leave alone *)

Lemma quiet_refl (s : State) : quiet s s.
Proof. by repeat split. Qed.

Lemma quiet_trans (s1 s2 s3 : State) : quiet s1 s2 → quiet s2 s3 → quiet s1 s3.
Proof.
  intros (H1 & H2 & H3 & H4 & H5 & H6) (G1 & G2 & G3 & G4 & G5 & G6).
  repeat split; congruence.
Qed.

Lemma same_wiring_refl (s : State) : same_wiring s s.
Proof. by repeat split. Qed.

Lemma same_wiring_trans (s1 s2 s3 : State) :
  same_wiring s1 s2 → same_wiring s2 s3 → same_wiring s1 s3.
Proof.
  intros (H1 & H2 & H3) (G1 & G2 & G3). repeat split; congruence.
Qed.

Lemma advance_quiet (amount : Q) (s : State) : quiet s (advance amount s).2.
Proof. unfold advance. by destruct (Qle_bool amount 0). Qed.

Lemma advance_wiring (amount : Q) (s : State) :
  same_wiring s (advance amount s).2.
Proof. unfold advance. by destruct (Qle_bool amount 0). Qed.

Lemma addFrame_quiet (frame : VibeFrame) (s : State) :
  quiet s (addFrame frame s).2.
Proof.
  destruct (Qlt_le_dec 0 (frame_duration frame)) as [Hd|Hd].
  - rewrite addFrame_unfold by done. cbv zeta.
    by destruct (forEach _ _ _ _).1.
  - rewrite addFrame_rejects by done. apply quiet_refl.
Qed.

Lemma addFrame_wiring (frame : VibeFrame) (s : State) :
  same_wiring s (addFrame frame s).2.
Proof.
  destruct (addFrame_fields frame s) as (H1 & H2 & H3 & _). by split.
Qed.

Lemma resetGroup_quiet (s : State) : quiet s (resetGroup s).2.
Proof. unfold resetGroup. by destruct (isEmpty _). Qed.

Lemma resetGroup_wiring (s : State) : same_wiring s (resetGroup s).2.
Proof.
  unfold resetGroup. destruct (isEmpty _); [done|].
  repeat split. apply clear_from_length.
Qed.

Lemma setGroup_quiet_wiring (group : VibeGroup) (s : State) :
  quiet s (setGroup group s).2 ∧ same_wiring s (setGroup group s).2.
Proof.
  unfold setGroup.
  pose proof (resetGroup_quiet s) as Hq.
  pose proof (resetGroup_wiring s) as Hw.
  destruct (resetGroup s) as [c s1]. simpl in Hq, Hw.
  set (c1 := c || _).
  assert (quiet s (set_username (group_username group) s1) ∧
          same_wiring s (set_username (group_username group) s1)) as H
    by done.
  revert H. generalize (set_username (group_username group) s1) c1.
  clear. induction (group_frames group) as [|f fs IH]; intros s' c H;
    [done|].
  simpl. pose proof (addFrame_quiet f s') as Hq.
  pose proof (addFrame_wiring f s') as Hw.
  destruct (addFrame f s') as [c' s'']. apply IH. destruct H as [H1 H2].
  split; [by eapply quiet_trans|by eapply same_wiring_trans].
Qed.

Lemma updateDevices_quiet (updated : list VibeDevice) (s : State) :
  quiet s (updateDevices updated s).2.
Proof.
  unfold updateDevices. destruct (same_devices _ _); [apply quiet_refl|].
  destruct (forEach _ _ _ _) as [m st].
  by destruct (forEach _ _ _ _) as [dsets st'].
Qed.

Lemma prune_quiet (s : State) : quiet s (prune s).2.
Proof. unfold prune. by destruct (foldl _ _ _). Qed.

Lemma prune_wiring (s : State) : same_wiring s (prune s).2.
Proof.
  destruct (prune_fields s) as (H1 & H2 & _). split; [done|].
  split; [done|].
  pose proof (prune_loop_length (tNow s - VISIBLE_PAST) (datasets s)
                (false, store s)) as H.
  unfold prune. by destruct (foldl _ _ _).
Qed.

(** X11.  The six operations on the timeline data, [advance], [addFrame],
    [resetGroup], [setGroup], [updateDevices] and [prune], never redraw the
    chart and never touch the configuration, the visible window, the time
    stamp [tUpdatedAt] or the loop handle [rafId]. *)
Theorem data_operations_quiet (s : State) :
  (∀ amount, quiet s (advance amount s).2) ∧
  (∀ frame, quiet s (addFrame frame s).2) ∧
  quiet s (resetGroup s).2 ∧
  (∀ group, quiet s (setGroup group s).2) ∧
  (∀ updated, quiet s (updateDevices updated s).2) ∧
  quiet s (prune s).2.
Proof.
  split; [intros; apply advance_quiet|].
  split; [intros; apply addFrame_quiet|].
  split; [apply resetGroup_quiet|].
  split; [intros; apply setGroup_quiet_wiring|].
  split; [intros; apply updateDevices_quiet|apply prune_quiet].
Qed.

Lemma update_wiring_config (adv : bool) (t : Q) (s : State) :
  same_wiring s (update adv t s).2 ∧ config (update adv t s).2 = config s ∧
  rafId (update adv t s).2 = rafId s.
Proof.
  destruct (Qlt_le_dec (tUpdatedAt s) t) as [Hdt|Hdt];
    [|by rewrite update_stale].
  rewrite update_unfold by done. cbv zeta.
  set (tick := adv && Qlt_bool (tNow s) (tFrameEnd s)).
  set (s2 := if tick then _ else _).
  assert (same_wiring s s2 ∧ config s2 = config s ∧ rafId s2 = rafId s)
    as (Hw & Hc & Hr) by (subst s2; by destruct tick).
  pose proof (prune_wiring s2) as Hpw.
  destruct (prune_quiet s2) as (Hpc & _ & _ & _ & _ & Hpr).
  assert (same_wiring s (prune s2).2) as Hw' by by eapply same_wiring_trans.
  cbn [snd]. destruct ((prune s2).1 || tick);
    (split; [done|]; split; [by rewrite <- Hc, <- Hpc|by rewrite <- Hr, <- Hpr]).
Qed.

Lemma updateLoop_wiring_config (t : Q) (h : positive) (s : State) :
  same_wiring s (updateLoop t h s) ∧ config (updateLoop t h s) = config s.
Proof.
  unfold updateLoop. destruct (isEmpty s).
  - pose proof (resetGroup_wiring (set_rafId 0%N s)) as Hw.
    destruct (resetGroup_quiet (set_rafId 0%N s)) as (Hc & _).
    by split.
  - destruct (update_wiring_config true t s) as (Hw & Hc & _). by split.
Qed.

Lemma startUpdateLoop_wiring_config (t : Q) (h : positive) (s : State) :
  same_wiring s (startUpdateLoop t h s) ∧
  config (startUpdateLoop t h s) = config s.
Proof.
  unfold startUpdateLoop. destruct (negb _); [done|].
  apply updateLoop_wiring_config.
Qed.

Lemma step_wiring (o : Op) (s : State) :
  carries_devices o = false → same_wiring s (step o s).
Proof.
  intros Ho. destruct o; simpl in *; try done.
  - apply advance_wiring.
  - apply update_wiring_config.
  - apply addFrame_wiring.
  - apply setGroup_quiet_wiring.
  - apply resetGroup_wiring.
  - apply prune_wiring.
  - apply updateLoop_wiring_config.
  - unfold onmessage.
    assert (same_wiring s (dispatch msg t1 h s).2) as Hd.
    { destruct msg; simpl in *; try done.
      - apply resetGroup_wiring.
      - pose proof (proj2 (setGroup_quiet_wiring group s)) as Hs.
        destruct (setGroup group s) as [c s1].
        eapply same_wiring_trans; [done|].
        apply startUpdateLoop_wiring_config.
      - pose proof (addFrame_wiring frame s) as Hs.
        destruct (addFrame frame s) as [c s1].
        eapply same_wiring_trans; [done|].
        apply startUpdateLoop_wiring_config.
      - apply advance_wiring. }
    destruct (dispatch msg t1 h s) as [[|] s1]; [|done].
    eapply same_wiring_trans; [done|]. apply update_wiring_config.
Qed.

(** X12.  Only a device list rewires the chart: every operation other than
    [updateDevices] and the message update-devices keeps the device list,
    keeps the array each dataset holds, and allocates no array. *)
Theorem only_updateDevices_rewires (o : Op) (s : State) :
  carries_devices o = false → same_wiring s (step o s).
Proof. apply step_wiring. Qed.

Lemma only_updateDevices_rewires_witness :
  same_wiring stateX (step (OMessage (AddFrame frameX) 3 4 1) stateX).
Proof. by apply only_updateDevices_rewires. Defined.

(** X13.  Only the message update-config changes the configuration: every
    other operation leaves it as it is. *)
Theorem only_update_config_sets_config (o : Op) (s : State) :
  carries_config o = false → config (step o s) = config s.
Proof.
  intros Ho. destruct o; simpl in *.
  - apply advance_quiet.
  - apply update_wiring_config.
  - apply addFrame_quiet.
  - apply setGroup_quiet_wiring.
  - apply resetGroup_quiet.
  - apply updateDevices_quiet.
  - apply prune_quiet.
  - apply updateLoop_wiring_config.
  - unfold onmessage.
    assert (config (dispatch msg t1 h s).2 = config s) as Hd.
    { destruct msg; simpl in *; try done.
      - apply updateDevices_quiet.
      - apply resetGroup_quiet.
      - destruct (proj1 (setGroup_quiet_wiring group s)) as (Hs & _).
        destruct (setGroup group s) as [c s1]. simpl in *.
        by rewrite (proj2 (startUpdateLoop_wiring_config t1 h s1)).
      - destruct (addFrame_quiet frame s) as (Hs & _).
        destruct (addFrame frame s) as [c s1]. simpl in *.
        by rewrite (proj2 (startUpdateLoop_wiring_config t1 h s1)).
      - apply advance_quiet. }
    destruct (dispatch msg t1 h s) as [[|] s1]; [|done].
    destruct (update_wiring_config false t2 s1) as (_ & Hc & _).
    by rewrite Hc.
Qed.

Lemma only_update_config_sets_config_witness :
  config (step (OMessage (SetGroup {| group_username := "alice";
                                      group_frames := [frameX] |}) 3 4 1)
            stateX) = config stateX.
Proof. by apply only_update_config_sets_config. Defined.

(** ** The visible window *)






(** ** Capacity and sharing *)

Lemma updateDevices_capacity (updated : list VibeDevice) (s : State) :
  (length (devices s) ≤ length (datasets s))%nat →
  length (datasets (updateDevices updated s).2) = length (datasets s) ∧
  (length (devices (updateDevices updated s).2)
   ≤ length (datasets s))%nat.
Proof.
  intros Hcap. destruct (decide (updated = devices s)) as [Heq|Hne].
  { by rewrite updateDevices_same. }
  rewrite updateDevices_unfold by done. cbv zeta. simpl.
  set (cap := forEach _ 0%nat (devices s) (∅, store s)).
  destruct (rebuild_loop cap.1 (take (length (datasets s)) updated) 0
              (datasets s) cap.2) as (Hl & _).
  { rewrite length_take. simpl. lia. }
  split; [done|]. rewrite length_take. lia.
Qed.

Lemma step_capacity (o : Op) (s : State) :
  (length (devices s) ≤ length (datasets s))%nat →
  length (datasets (step o s)) = length (datasets s) ∧
  (length (devices (step o s)) ≤ length (datasets s))%nat.
Proof.
  intros Hcap.
  destruct (carries_devices o) eqn:Ho.
  - destruct o; try done; simpl.
    + by apply updateDevices_capacity.
    + destruct msg; try done. unfold onmessage. simpl.
      pose proof (updateDevices_capacity devices0 s Hcap) as Hu.
      destruct (updateDevices devices0 s) as [[|] s1]; [|done].
      destruct (update_wiring_config false t2 s1) as ((Hd & Hds & _) & _).
      simpl in *. by rewrite Hd, Hds.
  - destruct (step_wiring o s Ho) as (Hd & Hds & _).
    rewrite Hd, Hds. done.
Qed.

Lemma run_capacity (ops : list Op) :
  length (datasets (run ops init)) = length LINE_COLORS ∧
  (length (devices (run ops init)) ≤ length LINE_COLORS)%nat.
Proof.
  assert (length (datasets init) = length LINE_COLORS ∧
          (length (devices init) ≤ length LINE_COLORS)%nat) as H
    by (simpl; lia).
  revert H. generalize init. induction ops as [|o ops IH]; intros s H;
    [done|].
  simpl. apply IH. destruct H as [H1 H2].
  destruct (step_capacity o s) as [G1 G2]; [lia|]. split; lia.
Qed.

(** X15.  The chart never grows and the device list never outgrows it: in
    every state reached from the initial one there are as many datasets as
    line colours, and at most as many devices, whatever device lists were
    received. *)
Theorem devices_fit_datasets (ops : list Op) :
  length (datasets (run ops init)) = length LINE_COLORS ∧
  (length (devices (run ops init)) ≤ length LINE_COLORS)%nat.
Proof. apply run_capacity. Qed.

(** X16.  No two datasets share an array as long as the device lists
    received name each device once: every state reached from the initial
    one is then well-formed, with distinct device names, one array per
    dataset and every array in the store. *)
Theorem reachable_well_formed (ops : list Op) :
  Forall names_distinct ops → state_ok (run ops init).
Proof. intros H. apply run_ok; [done|apply init_ok]. Qed.

Lemma reachable_well_formed_witness :
  state_ok (run [OMessage (UpdateDevices [dev "A"; dev "B"]) 1 2 1;
                 OMessage (AddFrame frameB) 3 4 1;
                 OMessage (UpdateDevices [dev "B"; dev "C"]) 5 6 1] init).
Proof.
  apply reachable_well_formed. repeat constructor; simpl.
  - intros [?|H]%elem_of_cons; [done|]. by apply not_elem_of_nil in H.
  - by apply not_elem_of_nil.
  - intros [?|H]%elem_of_cons; [done|]. by apply not_elem_of_nil in H.
  - by apply not_elem_of_nil.
Defined.

(** ** Groups *)

Lemma isEmpty_ext (s s' : State) :
  datasets s' = datasets s → store s' = store s → isEmpty s' = isEmpty s.
Proof. unfold isEmpty, getLength. by intros -> ->. Qed.

Lemma resetGroup_unfold (s : State) :
  resetGroup s =
    if isEmpty s then (false, zero_clock s)
    else (true, set_store (clear_from 0 (datasets s) (store s))
                  (zero_clock s)).
Proof.
  unfold resetGroup. fold (zero_clock s).
  by rewrite (isEmpty_ext s (zero_clock s)).
Qed.

Lemma isEmpty_cleared (s : State) :
  isEmpty (set_store (clear_from 0 (datasets s) (store s)) (zero_clock s))
  = true.
Proof.
  unfold isEmpty, getLength. simpl.
  destruct (datasets s !! 0%nat) as [ds|] eqn:E; [|done].
  rewrite clear_from_read, bool_decide_eq_true_2; [done|].
  rewrite drop_0. by eapply list_elem_of_lookup_2.
Qed.

Lemma zero_clock_idem (s : State) : zero_clock (zero_clock s) = zero_clock s.
Proof. by destruct s. Qed.

Lemma zero_clock_set_store (st : list (list Point)) (s : State) :
  zero_clock (set_store st (zero_clock s)) = set_store st (zero_clock s).
Proof. by destruct s. Qed.

(** X17.  [resetGroup] is idempotent: a second [resetGroup] right after the
    first answers [false] and changes nothing. *)
Theorem resetGroup_idempotent (s : State) :
  resetGroup (resetGroup s).2 = (false, (resetGroup s).2).
Proof.
  rewrite (resetGroup_unfold s). destruct (isEmpty s) eqn:E; cbn [snd].
  - rewrite resetGroup_unfold, (isEmpty_ext s (zero_clock s)), E by done.
    by rewrite zero_clock_idem.
  - rewrite resetGroup_unfold, isEmpty_cleared.
    by rewrite zero_clock_set_store.
Qed.

Lemma addFrame_username (frame : VibeFrame) (s : State) :
  username (addFrame frame s).2 = username s.
Proof.
  destruct (Qlt_le_dec 0 (frame_duration frame)) as [Hd|Hd].
  - rewrite addFrame_unfold by done. cbv zeta.
    by destruct (forEach _ _ _ _).1.
  - by rewrite addFrame_rejects.
Qed.

(** An OVERRIDE frame of positive duration takes effect as soon as there
    is one device. *)
Lemma addFrame_override (frame : VibeFrame) (s : State) :
  frame_mode frame = OVERRIDE → 0 < frame_duration frame →
  devices s ≠ [] → (length (devices s) ≤ length (datasets s))%nat →
  (addFrame frame s).1 = true ∧
  tTotal (addFrame frame s).2 = tTotal s + frame_duration frame.
Proof.
  intros Hm Hd Hdev Hcap. rewrite addFrame_unfold by done. cbv zeta.
  assert ((forEach (addFrame_body s frame (mapVibeTargets frame s)) 0
             (devices s) (false, store s)).1 = true) as ->; [|done].
  apply addFrame_loop_changed; [simpl; lia|]. right.
  destruct (devices s) as [|d devs] eqn:E; [done|]. exists d.
  split; [left|]. rewrite mapVibeTargets_lookup, Hm, E.
  destruct (last _); [by eexists|].
  rewrite bool_decide_eq_true_2; [by eexists|]. rewrite fmap_cons. left.
Qed.

(** The total a list of frames adds up to: the sum of the positive
    durations. *)
Lemma setGroup_frames (frames : list VibeFrame) (c : bool) (s : State) :
  let r := foldl (λ '(hasChanged, s) frame,
                    let '(c, s) := addFrame frame s in (c || hasChanged, s))
             (c, s) frames in
  tFrameBegin r.2 = tFrameBegin s ∧ tFrameEnd r.2 = tFrameEnd s ∧
  tNow r.2 = tNow s ∧ username r.2 = username s ∧
  (c = true → r.1 = true) ∧
  (devices s ≠ [] → (length (devices s) ≤ length (datasets s))%nat →
   Forall (λ f, frame_mode f = OVERRIDE) frames →
   tTotal r.2 =
     foldl (λ total f, if Qle_bool (frame_duration f) 0 then total
                       else total + frame_duration f)
           (tTotal s) frames).
Proof.
  revert c s. induction frames as [|f frames IH]; intros c s; [done|].
  cbn [foldl].
  destruct (addFrame_fields f s) as (Hd & Hds & _ & Hb & He & Hn & _).
  pose proof (addFrame_username f s) as Hu.
  pose proof (addFrame_override f s) as Ho.
  pose proof (addFrame_rejects f s) as Hr.
  destruct (addFrame f s) as [c' s'] eqn:Ea. simpl in *.
  destruct (IH (c' || c) s') as (Ib & Ie & In & Iu & Ic & It).
  rewrite Ib, Ie, In, Iu. do 4 (split; [done|]). split.
  - intros ->. apply Ic. apply orb_true_r.
  - intros Hdev Hcap Hall. apply Forall_cons in Hall as [Hm Hall].
    rewrite It by (rewrite ?Hd, ?Hds; done). f_equal.
    destruct (Qle_bool (frame_duration f) 0) eqn:Eq.
    + apply Qle_bool_true in Eq. specialize (Hr Eq). by simplify_eq.
    + apply Qle_bool_false in Eq. by apply Ho.
Qed.

(** X18.  [setGroup] restarts playback: afterwards the clock fields
    [tFrameBegin], [tFrameEnd] and [tNow] are zero and the user name is the
    group's; and when there is at least one device (each with a dataset)
    and the frames are all OVERRIDE, [tTotal] is the sum of the positive
    durations of the frames, the frames of non-positive duration being
    skipped. *)
Theorem setGroup_restarts (group : VibeGroup) (s : State) :
  let s' := (setGroup group s).2 in
  tFrameBegin s' = 0 ∧ tFrameEnd s' = 0 ∧ tNow s' = 0 ∧
  username s' = group_username group ∧
  (devices s ≠ [] → (length (devices s) ≤ length (datasets s))%nat →
   Forall (λ f, frame_mode f = OVERRIDE) (group_frames group) →
   tTotal s' =
     foldl (λ total f, if Qle_bool (frame_duration f) 0 then total
                       else total + frame_duration f)
           0 (group_frames group)).
Proof.
  intros s'. subst s'. unfold setGroup.
  destruct (resetGroup_effect s) as (Hb & He & Hn & Ht & _).
  destruct (resetGroup_wiring s) as (Hd & Hds & _).
  destruct (resetGroup s) as [c s1]. simpl in *.
  destruct (setGroup_frames (group_frames group)
              (c || negb (bool_decide (username s1 = group_username group)))
              (set_username (group_username group) s1))
    as (Ib & Ie & In & Iu & _ & It).
  rewrite Ib, Ie, In, Iu. simpl. do 4 (split; [done|]).
  intros Hdev Hcap Hall. rewrite It; simpl; rewrite ?Ht, ?Hd, ?Hds; done.
Qed.

Lemma setGroup_restarts_witness :
  tTotal (setGroup {| group_username := "alice";
                      group_frames := [frameX; frameX] |} stateX).2
  = 0 + 1000 + 1000.
Proof.
  apply (setGroup_restarts
           {| group_username := "alice"; group_frames := [frameX; frameX] |}
           stateX); [done|vm_compute; lia|by repeat constructor].
Defined.

(** X19.  [setGroup] compares the group's user name with the name that
    [resetGroup] has just emptied: it answers [true] for every group with a
    non-empty user name, and whenever [resetGroup] answered [true], whatever
    the frames; so setting the same group twice reports a change twice. *)
Theorem setGroup_reports_change (group : VibeGroup) (s : State) :
  group_username group ≠ "" ∨ (resetGroup s).1 = true →
  (setGroup group s).1 = true.
Proof.
  intros H. unfold setGroup.
  destruct (resetGroup_effect s) as (_ & _ & _ & _ & Hu & _).
  destruct (resetGroup s) as [c s1]. simpl in *.
  apply (setGroup_frames (group_frames group)).
  rewrite Hu. destruct H as [H| ->]; [|done].
  rewrite bool_decide_eq_false_2 by done. apply orb_true_r.
Qed.

Lemma setGroup_reports_change_witness :
  let g := {| group_username := "alice"; group_frames := [] |} in
  (setGroup g (setGroup g stateX).2).1 = true.
Proof. intros g. apply setGroup_reports_change. by left. Defined.

(** ** Repeated device lists *)

Lemma updateDevices_devices (updated : list VibeDevice) (s : State) :
  (length updated ≤ length (datasets s))%nat →
  devices (updateDevices updated s).2 = updated.
Proof.
  intros Hfit. destruct (decide (updated = devices s)) as [Heq|Hne].
  { by rewrite updateDevices_same. }
  rewrite updateDevices_unfold by done. cbv zeta. simpl.
  by apply take_ge.
Qed.

(** X20.  A device list that fits the datasets is absorbed: sending it
    again answers [false] and changes nothing.  A device list longer than
    the number of datasets never is: in every state reached from the
    initial one, [updateDevices] answers [true] for it, also when the
    devices in use are already its first ones. *)
Theorem updateDevices_again :
  (∀ updated s,
     (length updated ≤ length (datasets s))%nat →
     updateDevices updated (updateDevices updated s).2
     = (false, (updateDevices updated s).2)) ∧
  (∀ updated ops,
     (length LINE_COLORS < length updated)%nat →
     (updateDevices updated (run ops init)).1 = true).
Proof.
  split.
  - intros updated s Hfit. apply updateDevices_same.
    by rewrite updateDevices_devices.
  - intros updated ops Hlong. destruct (run_capacity ops) as [_ Hcap].
    rewrite updateDevices_unfold; [done|]. intros ->. lia.
Qed.

Lemma updateDevices_again_witness :
  updateDevices [dev "A"; dev "B"] (updateDevices [dev "A"; dev "B"] init).2
  = (false, (updateDevices [dev "A"; dev "B"] init).2) ∧
  (updateDevices [dev "A"; dev "B"; dev "C"; dev "D"; dev "E"; dev "F"]
     (run [OUpdateDevices [dev "A"; dev "B"; dev "C"; dev "D"; dev "E";
                           dev "F"]] init)).1 = true.
Proof.
  destruct updateDevices_again as [H1 H2]. split.
  - apply H1. simpl. lia.
  - apply H2. simpl. lia.
Defined.

(** ** Resolved targets *)

Lemma last_targets_for (n : string) (ts : list VibeTarget) (t : VibeTarget) :
  last (targets_for n ts) = Some t → t ∈ ts ∧ target_device t = n.
Proof.
  intros H. apply last_Some in H as [l' H].
  assert (t ∈ targets_for n ts) as Hin
    by (rewrite H; apply elem_of_app; right; left).
  unfold targets_for in Hin. by apply list_elem_of_filter in Hin as [? ?].
Qed.

Lemma last_targets_for_None (n : string) (ts : list VibeTarget) :
  last (targets_for n ts) = None ↔ ∀ t, t ∈ ts → target_device t ≠ n.
Proof.
  rewrite last_None. split.
  - intros H t Ht Hn.
    assert (t ∈ targets_for n ts) as Hin
      by (unfold targets_for; by apply list_elem_of_filter).
    rewrite H in Hin. by apply not_elem_of_nil in Hin.
  - apply targets_for_absent.
Qed.

(** X21.  What [mapVibeTargets] returns: every entry is filed under the
    device name its target carries; in OVERRIDE mode every device of the
    list has an entry; in EXCLUSIVE mode the names with an entry are
    exactly those of the frame's explicit targets. *)
Theorem mapVibeTargets_entries (frame : VibeFrame) (s : State) :
  (∀ n t, mapVibeTargets frame s !! n = Some t → target_device t = n) ∧
  (frame_mode frame = OVERRIDE →
   ∀ d, d ∈ devices s → is_Some (mapVibeTargets frame s !! device_name d)) ∧
  (frame_mode frame = EXCLUSIVE →
   ∀ n, is_Some (mapVibeTargets frame s !! n) ↔
        ∃ t, t ∈ frame_targets frame ∧ target_device t = n).
Proof.
  split; [|split].
  - intros n t. rewrite mapVibeTargets_lookup.
    destruct (last _) as [t'|] eqn:E.
    + intros [= <-]. by apply last_targets_for in E as [_ ?].
    + destruct (frame_mode frame); [|done]. case_bool_decide; [|done].
      by intros [= <-].
  - intros Hm d Hd. rewrite mapVibeTargets_lookup, Hm.
    destruct (last _); [by eexists|].
    rewrite bool_decide_eq_true_2; [by eexists|].
    apply list_elem_of_fmap. by exists d.
  - intros Hm n. rewrite mapVibeTargets_lookup, Hm.
    destruct (last _) as [t'|] eqn:E.
    + split; [|by eexists]. intros _. exists t'.
      by apply last_targets_for.
    + split; [by intros [? ?]|]. intros (t & Ht & Hn).
      by destruct (proj1 (last_targets_for_None n _) E t Ht).
Qed.

Lemma mapVibeTargets_entries_witness :
  is_Some (mapVibeTargets frameX stateX !! "X") ∧
  (is_Some (mapVibeTargets frameB stateX !! "X") ↔
   ∃ t, t ∈ frame_targets frameB ∧ target_device t = "X").
Proof.
  destruct (mapVibeTargets_entries frameX stateX) as (_ & Ho & _).
  destruct (mapVibeTargets_entries frameB stateX) as (_ & _ & He).
  split.
  - apply (Ho eq_refl (dev "X")). by left.
  - apply (He eq_refl).
Defined.

(** ** The animation loop *)

(** X22.  Arming of the animation loop.  [startUpdateLoop] does nothing
    while a callback is pending.  [updateLoop] on an empty dataset 0 stops
    the loop: the handle is zero, the clock and [tTotal] are zero, nothing
    is redrawn and no dataset changes.  On a non-empty dataset 0 it runs
    [update] and arms the next callback.  So after [updateLoop] the handle
    is zero exactly when dataset 0 was empty. *)
Theorem updateLoop_arming (t : Q) (h : positive) (s : State) :
  (rafId s ≠ 0%N → startUpdateLoop t h s = s) ∧
  (isEmpty s = true →
   let s' := updateLoop t h s in
   rafId s' = 0%N ∧ tFrameBegin s' = 0 ∧ tFrameEnd s' = 0 ∧ tNow s' = 0 ∧
   tTotal s' = 0 ∧ redraws s' = redraws s ∧
   ∀ i, slot_data s' i = slot_data s i) ∧
  (isEmpty s = false →
   updateLoop t h s = set_rafId (Npos h) (update true t s).2) ∧
  (rafId (updateLoop t h s) = 0%N ↔ isEmpty s = true).
Proof.
  split; [|split; [|split]].
  - intros H. unfold startUpdateLoop.
    destruct (N.eqb_spec (rafId s) 0); [done|done].
  - intros He s'. subst s'. unfold updateLoop. rewrite He.
    rewrite resetGroup_unfold, (isEmpty_ext s (set_rafId 0%N s)), He by done.
    by destruct s.
  - intros He. unfold updateLoop. by rewrite He.
  - unfold updateLoop. destruct (isEmpty s) eqn:He.
    + rewrite resetGroup_unfold, (isEmpty_ext s (set_rafId 0%N s)), He
        by done. done.
    + simpl. split; [done|done].
Qed.

Lemma updateLoop_arming_witness :
  rafId (updateLoop 16 7 stateX) = 0%N ∧
  updateLoop 16 7 (addFrame frameX stateX).2
  = set_rafId 7%N (update true 16 (addFrame frameX stateX).2).2.
Proof.
  destruct (updateLoop_arming 16 7 stateX) as (_ & H1 & _).
  destruct (updateLoop_arming 16 7 (addFrame frameX stateX).2)
    as (_ & _ & H2 & _).
  split; [by apply H1|by apply H2].
Defined.

(** ** Presentation helpers *)

(** X23.  [getLineColor] answers a colour of the palette for every index,
    the colour at that index for the indices of the palette, and the same
    colour again one palette length further. *)
Theorem getLineColor_cycles (i : nat) :
  (∃ c, getLineColor i = Some c ∧ c ∈ LINE_COLORS) ∧
  getLineColor (i + length LINE_COLORS) = getLineColor i ∧
  ((i < length LINE_COLORS)%nat → getLineColor i = LINE_COLORS !! i).
Proof.
  unfold getLineColor. split; [|split].
  - destruct (lookup_lt_is_Some_2 LINE_COLORS (i mod length LINE_COLORS))
      as [c Hc].
    { apply Nat.mod_upper_bound. simpl. lia. }
    exists c. split; [done|]. by eapply list_elem_of_lookup_2.
  - f_equal. rewrite <- (Nat.mul_1_l (length LINE_COLORS)) at 1.
    apply Nat.Div0.mod_add.
  - intros H. by rewrite Nat.mod_small.
Qed.

Lemma getLineColor_cycles_witness :
  getLineColor 2 = LINE_COLORS !! 2%nat.
Proof.
  apply (proj2 (proj2 (getLineColor_cycles 2))). simpl. lia.
Defined.

Lemma padStart_two_digits (n : Z) :
  (0 ≤ n < 100)%Z → padStart 2 "0"%char (toString n) = two_digits n.
Proof.
  intros Hn.
  assert (forallb (λ k, String.eqb
                          (padStart 2 "0"%char (toString (Z.of_nat k)))
                          (two_digits (Z.of_nat k)))
                  (seq 0 100) = true) as Hall by (vm_compute; reflexivity).
  rewrite forallb_forall in Hall.
  specialize (Hall (Z.to_nat n)). rewrite Z2Nat.id in Hall by lia.
  apply String.eqb_eq, Hall, in_seq. lia.
Qed.

(** X24.  [formatTime] of a time from zero to below one hundred minutes is
    the clock reading MM:SS: with [s] the whole seconds, two digits for
    [s / 60], a colon, and two digits for [s mod 60], five characters in
    all. *)
Theorem formatTime_clock (ms : Q) :
  0 <= ms → ms < 6000000 →
  let s := Qfloor (ms / 1000) in
  (0 ≤ s `div` 60 < 100)%Z ∧ (0 ≤ s `mod` 60 < 60)%Z ∧
  formatTime ms = two_digits (s `div` 60) +:+ ":" +:+ two_digits (s `mod` 60) ∧
  String.length (formatTime ms) = 5%nat.
Proof.
  intros H0 H1 s.
  assert (0 ≤ s < 6000)%Z as Hs.
  { subst s. split.
    - change 0%Z with (Qfloor 0). apply Qfloor_resp_le.
      apply Qle_shift_div_l; lra.
    - rewrite Zlt_Qlt. eapply Qle_lt_trans; [apply Qfloor_le|].
      change (inject_Z 6000) with (6000 : Q).
      apply Qlt_shift_div_r; lra. }
  assert (0 ≤ s `div` 60 < 100)%Z as Hm.
  { split; [apply Z.div_pos; lia|apply Z.div_lt_upper_bound; lia]. }
  assert (0 ≤ s `mod` 60 < 60)%Z as Hsec by (apply Z.mod_pos_bound; lia).
  split; [done|]. split; [done|].
  assert (formatTime ms
          = two_digits (s `div` 60) +:+ ":" +:+ two_digits (s `mod` 60))
    as ->; [|done].
  unfold formatTime. fold s.
  rewrite Z.rem_mod_nonneg by lia.
  by rewrite !padStart_two_digits by lia.
Qed.

Lemma formatTime_clock_witness :
  formatTime 61500 = two_digits 1 +:+ ":" +:+ two_digits 1.
Proof.
  apply (formatTime_clock 61500); by vm_compute.
Defined.

Section cursor_line.
Variables (getPixelForValue : Q → Q) (st : list (list Point)) (now : Q).

Lemma cursorLine_loop (dsets : list loc) (bottom : Q) :
  let top :=
    foldl (λ lineTop ds,
             let data := read st ds in
             if (length data =? 0)%nat then lineTop else
             match getChartValueAtTime data now with
             | None => lineTop
             | Some vNow =>
                 let y := getPixelForValue vNow in
                 if Qlt_bool y lineTop then y else lineTop
             end) bottom dsets in
  top <= bottom ∧
  (∀ l v, l ∈ dsets → getChartValueAtTime (read st l) now = Some v →
          top <= getPixelForValue v) ∧
  (top = bottom ∨
   ∃ l v, l ∈ dsets ∧ getChartValueAtTime (read st l) now = Some v ∧
          top = getPixelForValue v).
Proof.
  revert bottom. induction dsets as [|ds dsets IH]; intros bottom.
  { simpl. split; [lra|]. split; [|by left].
    intros l v Hl. by apply not_elem_of_nil in Hl. }
  cbn [foldl]. cbv zeta.
  set (b' := if (length (read st ds) =? 0)%nat then bottom else _).
  destruct (IH b') as (Hle & Hall & Hex). cbv zeta in Hle, Hall, Hex.
  assert (b' <= bottom ∧
          (∀ v, getChartValueAtTime (read st ds) now = Some v →
                b' <= getPixelForValue v) ∧
          (b' = bottom ∨
           ∃ v, getChartValueAtTime (read st ds) now = Some v ∧
                b' = getPixelForValue v)) as (Hb1 & Hb2 & Hb3).
  { subst b'. destruct (read st ds) as [|p data] eqn:Hd.
    - simpl. split; [lra|]. split; [done|by left].
    - cbn [length Nat.eqb].
      destruct (getChartValueAtTime (p :: data) now) as [v|];
        [|split; [lra|]; split; [done|by left]].
      destruct (Qlt_bool (getPixelForValue v) bottom) eqn:E.
      + apply Qlt_bool_true in E. split; [lra|]. split.
        * intros v' [= <-]. lra.
        * right. by exists v.
      + apply Qlt_bool_false in E. split; [lra|]. split.
        * by intros v' [= <-].
        * by left. }
  split; [lra|]. split.
  - intros l v [->|Hl]%elem_of_cons Hv.
    + specialize (Hb2 v Hv). lra.
    + by apply (Hall l v).
  - destruct Hex as [->|(l & v & Hl & Hv & ->)].
    + destruct Hb3 as [->|(v & Hv & ->)]; [by left|].
      right. exists ds, v. split; [left|done].
    + right. exists l, v. split; [by right|done].
Qed.
End cursor_line.

(** X25.  The cursor line starts at the topmost current value: the top
    computed by the plugin [cursorLine] is not below the bottom of the
    chart area, is at or above the pixel of the value under the cursor of
    every dataset, and is the bottom itself or the pixel of one of those
    values. *)
Theorem cursorLineTop_topmost (getPixelForValue : Q → Q) (bottom : Q)
    (s : State) :
  let top := cursorLineTop getPixelForValue bottom s in
  top <= bottom ∧
  (∀ i v, getChartValueAtTime (slot_data s i) (tNow s) = Some v →
          top <= getPixelForValue v) ∧
  (top = bottom ∨
   ∃ i v, getChartValueAtTime (slot_data s i) (tNow s) = Some v ∧
          top = getPixelForValue v).
Proof.
  intros top.
  destruct (cursorLine_loop getPixelForValue (store s) (tNow s)
              (datasets s) bottom) as (H1 & H2 & H3).
  fold (cursorLineTop getPixelForValue bottom s) in H1, H2, H3.
  fold top in H1, H2, H3. split; [done|]. split.
  - intros i v Hv. unfold slot_data in Hv.
    destruct (datasets s !! i) as [l|] eqn:Hi; [|done].
    apply (H2 l v); [by eapply list_elem_of_lookup_2|done].
  - destruct H3 as [?|(l & v & Hl & Hv & Ht)]; [by left|]. right.
    apply list_elem_of_lookup in Hl as (i & Hi). exists i, v.
    unfold slot_data. by rewrite Hi.
Qed.

(** X26.  No sample lies after [tTotal]: from a well-formed state with
    empty arrays, after any sequence of [addFrame] calls, every sample of
    every dataset has a time not after [tTotal]. *)
Theorem samples_within_total (frames : list VibeFrame) (s : State)
    (i : nat) (p : Point) :
  state_ok s → (∀ i, slot_data s i = []) →
  p ∈ slot_data (run (OAddFrame <$> frames) s) i →
  pt_x p <= tTotal (run (OAddFrame <$> frames) s).
Proof.
  intros Hok Hempty.
  by apply (addFrames_timeline_ok frames s Hok (empty_timeline_ok s Hempty)).
Qed.

Lemma samples_within_total_witness :
  pt_x (pt 900 1) <= tTotal (run (OAddFrame <$> [frameX; frameX]) stateX).
Proof.
  apply (samples_within_total [frameX; frameX] stateX 0);
    [apply stateX_ok|apply stateX_empty|].
  apply list_elem_of_lookup. by exists 1%nat.
Defined.

(** ** A device that leaves and returns *)



(** ** Order is kept by pruning *)

Lemma nondecreasing_drop (k : nat) (data : list Point) :
  nondecreasing data → nondecreasing (drop k data).
Proof.
  intros H i j p q Hij Hp Hq. rewrite lookup_drop in Hp, Hq.
  apply (H (k + i)%nat (k + j)%nat); [lia|done..].
Qed.

Lemma pruned_nondecreasing (cutoff : Q) (data : list Point) :
  nondecreasing data → nondecreasing (pruned cutoff data).
Proof.
  intros H. destruct (pruned_suffix cutoff data) as (k & -> & _).
  by apply nondecreasing_drop.
Qed.

(** X28.  Pruning keeps the order: a dataset whose samples are ordered by
    time is still ordered after [prune] and after [update]. *)
Theorem prune_keeps_order (s : State) (i : nat) :
  nondecreasing (slot_data s i) →
  nondecreasing (slot_data (prune s).2 i) ∧
  ∀ adv t, nondecreasing (slot_data (update adv t s).2 i).
Proof.
  intros H. split.
  - rewrite prune_slot. by apply pruned_nondecreasing.
  - intros adv t. destruct (Qlt_le_dec (tUpdatedAt s) t) as [Hdt|Hdt].
    + rewrite update_slot by done. by apply pruned_nondecreasing.
    + by rewrite update_stale.
Qed.

Lemma prune_keeps_order_witness :
  nondecreasing (slot_data (prune stateX3).2 0).
Proof. apply prune_keeps_order, stateX3_nondecreasing. Defined.

(** ** New data starts the loop *)

Lemma isEmpty_slot (s : State) : isEmpty s = true ↔ slot_data s 0 = [].
Proof.
  unfold isEmpty, getLength, slot_data. rewrite Nat.eqb_eq.
  destruct (datasets s !! 0%nat); [apply length_zero_iff_nil|done].
Qed.

Lemma startUpdateLoop_armed (t : Q) (h : positive) (s : State) :
  slot_data s 0 ≠ [] → rafId (startUpdateLoop t h s) ≠ 0%N.
Proof.
  intros H. unfold startUpdateLoop.
  destruct (N.eqb_spec (rafId s) 0) as [Hr|Hr]; [|done]. simpl.
  unfold updateLoop. destruct (isEmpty s) eqn:E.
  - by apply isEmpty_slot in E.
  - done.
Qed.

(** X29.  New data starts the animation loop: after the message add-frame
    or set-group, if dataset 0 holds samples once the frames are appended,
    a callback of the loop is pending ([rafId] is not zero). *)
Theorem new_data_starts_loop (t1 t2 : Q) (h : positive) (s : State) :
  (∀ frame, slot_data (addFrame frame s).2 0 ≠ [] →
            rafId (onmessage (AddFrame frame) t1 t2 h s) ≠ 0%N) ∧
  (∀ group, slot_data (setGroup group s).2 0 ≠ [] →
            rafId (onmessage (SetGroup group) t1 t2 h s) ≠ 0%N).
Proof.
  split.
  - intros frame H. unfold onmessage. simpl.
    destruct (addFrame frame s) as [c s1]. simpl in H.
    pose proof (startUpdateLoop_armed t1 h s1 H) as Ha.
    destruct c; [|done].
    by rewrite (proj2 (proj2 (update_wiring_config false t2 _))).
  - intros group H. unfold onmessage. simpl.
    destruct (setGroup group s) as [c s1]. simpl in H.
    pose proof (startUpdateLoop_armed t1 h s1 H) as Ha.
    destruct c; [|done].
    by rewrite (proj2 (proj2 (update_wiring_config false t2 _))).
Qed.

Lemma new_data_starts_loop_witness :
  rafId (onmessage (AddFrame frameX) 3 4 7 stateX) ≠ 0%N.
Proof.
  apply (proj1 (new_data_starts_loop 3 4 7 stateX)). by vm_compute.
Defined.

(** ** Further witnesses *)

Lemma getChartValueAtTime_null_witness :
  getChartValueAtTime (slot_data (addFrame frameX stateX).2 0) (-1) = None.
Proof.
  apply (proj2 (getChartValueAtTime_null _ (-1))).
  intros p Hp. vm_compute in Hp. injection Hp as <-. by vm_compute.
Defined.

Lemma prune_reports_removal_witness :
  ∃ i, (length (slot_data (prune stateX3).2 i)
        < length (slot_data stateX3 i))%nat.
Proof. apply (proj2 (prune_reports_removal stateX3)). by vm_compute. Defined.

Lemma update_reports_redraw_witness :
  (update false 1 stateX).2 = set_tUpdatedAt 1 stateX.
Proof.
  apply (proj2 (proj2 (update_reports_redraw false 1 stateX))).
  by vm_compute.
Defined.

Lemma cursorLineTop_topmost_witness :
  cursorLineTop (λ v, 80 - 80 * v) 80 (addFrame frameX stateX).2
  <= 80 - 80 * 1.
Proof.
  apply (proj1 (proj2 (cursorLineTop_topmost (λ v, 80 - 80 * v) 80
                         (addFrame frameX stateX).2)) 0%nat 1).
  by vm_compute.
Defined.
